(** * swaga2: the sentiment demo of [app.js]

    A shallow embedding of [src/app.js]: the response normalizer
    [normalizeHfResponse], the ingestion callback of [loadTSV] and the
    controller [analyzeRandom], followed by the properties the specification
    states about them.

    Conventions of the embedding.
    - A JavaScript number is modelled by its exact value: a rational, one of
      the two infinities, or NaN.  The program compares numbers and uses the
      sign of one difference (the sort comparator); on IEEE doubles the
      rounded difference of two numbers has the sign of the exact one, so
      the exact value decides these branches.  The one product the program
      computes, in [chooseRandom], is rounded to the nearest double, as the
      processor rounds it.  +0 and -0 are identified.
    - A string is the sequence of bytes of its UTF-8 encoding.  [trim]
      removes the white space and the line terminators of ECMAScript,
      whatever their length in bytes; [toUpperCase] is computed on ASCII
      text and is an operation of the host on any other text.
    - An expression that can throw evaluates to a [completion]; the binder
      [x ← e; k] is the sequencing of statements.
    - Arrays reached from the argument of [normalizeHfResponse] are mutable
      objects: the model returns the argument as it is after the call next
      to the returned value.
    - The document is a finite map from (element, property) to text, and a
      statement of [loadTSV] or [analyzeRandom] is an [action] on the
      [world]: the store [STATE], the document, the calls of [fetch] made so
      far and the promise of the latest load.  What the environment decides
      (the callback Papa Parse makes, the draw of [Math.random], the outcome
      of [fetch]) is an argument of the operation.  The page helpers are
      taken not to throw: the elements they address exist.

    The file has three parts: the model, the vocabulary of the properties,
    and the properties with their proofs. *)

From Stdlib Require Import QArith Qround Qpower Lqa Ascii String.
From stdpp Require Import base option list list_monad sorting strings gmap pretty.

Local Open Scope string_scope.
Local Open Scope list_scope.
Set Warnings "-register-all".

(** ** Numbers *)

Inductive number : Type :=
  | NaN
  | NegInfinity
  | Finite (q : Q)
  | PosInfinity.

Definition Qlt_bool (a b : Q) : bool := negb (Qle_bool b a).

(** [x - y] *)
Definition num_sub (x y : number) : number :=
  match x, y with
  | NaN, _ | _, NaN => NaN
  | PosInfinity, PosInfinity => NaN
  | NegInfinity, NegInfinity => NaN
  | PosInfinity, _ => PosInfinity
  | NegInfinity, _ => NegInfinity
  | Finite _, PosInfinity => NegInfinity
  | Finite _, NegInfinity => PosInfinity
  | Finite a, Finite b => Finite (a - b)
  end.

(** [x < y]; every comparison with NaN is false. *)
Definition num_ltb (x y : number) : bool :=
  match x, y with
  | NaN, _ | _, NaN => false
  | _, NegInfinity => false
  | NegInfinity, _ => true
  | PosInfinity, _ => false
  | Finite _, PosInfinity => true
  | Finite a, Finite b => Qlt_bool a b
  end.

(** [x > y] *)
Definition num_gtb (x y : number) : bool := num_ltb y x.

Definition is_nan (x : number) : bool :=
  match x with NaN => true | _ => false end.

Definition num_zero : number := Finite 0.
Definition num_one : number := Finite 1.
Definition num_half : number := Finite (1 # 2).

(** ** Values *)

(** The values [JSON.parse] produces, and [undefined]. An object is the list
    of its own properties in insertion order. *)
Inductive value : Type :=
  | VUndefined
  | VNull
  | VBool (b : bool)
  | VNum (n : number)
  | VStr (s : string)
  | VArr (items : list value)
  | VObj (props : list (string * value)).

(** An exception value: an [Error] object with its [name] and [message]. *)
Record error : Type := mkError { err_name : string; err_message : string }.

Definition TypeError (msg : string) : error := mkError "TypeError" msg.

Inductive completion (A : Type) : Type :=
  | Normal (a : A)
  | Throw (e : error).
Arguments Normal {A} a.
Arguments Throw {A} e.

#[global] Instance completion_ret : MRet completion := fun A a => Normal a.
#[global] Instance completion_bind : MBind completion := fun A B f c =>
  match c with
  | Normal a => f a
  | Throw e => Throw e
  end.
#[global] Instance completion_fmap : FMap completion := fun A B f c =>
  match c with
  | Normal a => Normal (f a)
  | Throw e => Throw e
  end.

(** [!!v] *)
Definition ToBoolean (v : value) : bool :=
  match v with
  | VUndefined | VNull => false
  | VBool b => b
  | VNum NaN => false
  | VNum (Finite q) => negb (Qeq_bool q 0)
  | VNum _ => true
  | VStr s => negb (String.eqb s "")
  | VArr _ | VObj _ => true
  end.

Definition typeof (v : value) : string :=
  match v with
  | VUndefined => "undefined"
  | VNull => "object"
  | VBool _ => "boolean"
  | VNum _ => "number"
  | VStr _ => "string"
  | VArr _ | VObj _ => "object"
  end.

(** [Array.isArray(v)] *)
Definition isArray (v : value) : bool :=
  match v with VArr _ => true | _ => false end.

(** The own property [k] of an object. *)
Fixpoint own_property (k : string) (props : list (string * value)) : option value :=
  match props with
  | [] => None
  | (k', v) :: rest => if String.eqb k k' then Some v else own_property k rest
  end.

(** [v.k] for a key [k] that no prototype defines ([score], [label], [text],
    [data], [error]): a [TypeError] on [undefined] and [null], the own
    property of an object, [undefined] in every other case. *)
Definition get (v : value) (k : string) : completion value :=
  match v with
  | VUndefined => Throw (TypeError ("Cannot read properties of undefined (reading '" +:+ k +:+ "')"))
  | VNull => Throw (TypeError ("Cannot read properties of null (reading '" +:+ k +:+ "')"))
  | VObj props => Normal (default VUndefined (own_property k props))
  | _ => Normal VUndefined
  end.

(** [v?.k] *)
Definition get_opt (v : value) (k : string) : value :=
  match v with
  | VObj props => default VUndefined (own_property k props)
  | _ => VUndefined
  end.

(** [v[i]] on an array; [undefined] out of range. *)
Definition index (v : value) (i : nat) : value :=
  match v with
  | VArr items => default VUndefined (items !! i)
  | _ => VUndefined
  end.

(** [a ?? b] *)
Definition nullish (a b : value) : value :=
  match a with
  | VUndefined | VNull => b
  | _ => a
  end.

(** ** Strings *)

Definition upper_ascii (c : ascii) : ascii :=
  let n := nat_of_ascii c in
  if (97 <=? n)%nat && (n <=? 122)%nat then ascii_of_nat (n - 32) else c.

(** Upper case of a text of ASCII characters: a to z become A to Z. *)
Fixpoint upper_ascii_text (s : string) : string :=
  match s with
  | EmptyString => EmptyString
  | String c rest => String (upper_ascii c) (upper_ascii_text rest)
  end.

(** Every byte of [s] is an ASCII character. *)
Fixpoint is_ascii_text (s : string) : bool :=
  match s with
  | EmptyString => true
  | String c rest => (nat_of_ascii c <? 128)%nat && is_ascii_text rest
  end.

(** The white space and line terminators of one byte: TAB, LF, VT, FF, CR,
    SP. *)
Definition is_space (c : ascii) : bool :=
  let n := nat_of_ascii c in
  ((9 <=? n)%nat && (n <=? 13)%nat) || (n =? 32)%nat.

(** The one of two bytes: U+00A0, the no-break space. *)
Definition is_space2 (c1 c2 : ascii) : bool :=
  (nat_of_ascii c1 =? 194)%nat && (nat_of_ascii c2 =? 160)%nat.

(** Those of three bytes: U+1680, U+2000 to U+200A, the line and paragraph
    separators U+2028 and U+2029, U+202F, U+205F, U+3000, and the byte order
    mark U+FEFF. *)
Definition is_space3 (c1 c2 c3 : ascii) : bool :=
  let n1 := nat_of_ascii c1 in
  let n2 := nat_of_ascii c2 in
  let n3 := nat_of_ascii c3 in
  (n1 =? 225)%nat && (n2 =? 154)%nat && (n3 =? 128)%nat ||
  (n1 =? 226)%nat && (n2 =? 128)%nat &&
    ((128 <=? n3)%nat && (n3 <=? 138)%nat || (n3 =? 168)%nat || (n3 =? 169)%nat ||
     (n3 =? 175)%nat) ||
  (n1 =? 226)%nat && (n2 =? 129)%nat && (n3 =? 159)%nat ||
  (n1 =? 227)%nat && (n2 =? 128)%nat && (n3 =? 128)%nat ||
  (n1 =? 239)%nat && (n2 =? 187)%nat && (n3 =? 191)%nat.

(** What follows the white-space character [s] starts with, if it starts
    with one. *)
Definition leading_space (s : string) : option string :=
  match s with
  | String c1 r1 =>
      if is_space c1 then Some r1 else
      match r1 with
      | String c2 r2 =>
          if is_space2 c1 c2 then Some r2 else
          match r2 with
          | String c3 r3 => if is_space3 c1 c2 c3 then Some r3 else None
          | EmptyString => None
          end
      | EmptyString => None
      end
  | EmptyString => None
  end.

(** [s] with at most [n] leading white-space characters removed. *)
Fixpoint strip_start (n : nat) (s : string) : string :=
  match n with
  | O => s
  | S n' =>
      match leading_space s with
      | Some rest => strip_start n' rest
      | None => s
      end
  end.

(** [s.trimStart()]: a string has no more white-space characters than
    bytes. *)
Definition trim_start (s : string) : string := strip_start (String.length s) s.

(** [s.trimEnd()]: once the rest is trimmed, the first byte goes only if
    what is left is one white-space character. *)
Fixpoint trim_end (s : string) : string :=
  match s with
  | EmptyString => EmptyString
  | String c rest =>
      let t := String c (trim_end rest) in
      match leading_space t with
      | Some EmptyString => EmptyString
      | _ => t
      end
  end.

(** [s.trim()] *)
Definition trim (s : string) : string := trim_end (trim_start s).

(** ** The host

    Four operations of the JavaScript runtime the model does not compute:
    the numeric value of a string ([StringToNumber]), the text of an array
    ([Array.prototype.toString], which throws when an element cannot be
    converted), [Number.prototype.toFixed] at three digits, and the upper
    case of a text that is not all ASCII ([ToUppercase], the full case
    mapping of Unicode). *)
Class Host : Type := {
  StringToNumber : string -> number;
  ArrayToString : list value -> completion string;
  toFixed3 : number -> string;
  ToUppercase : string -> string
}.

(** [s.toUpperCase()]: on ASCII text the mapping of a to z; on any other
    text the mapping of the host, which may turn other characters into
    ASCII letters. *)
Definition toUpperCase `{Host} (s : string) : string :=
  if is_ascii_text s then upper_ascii_text s else ToUppercase s.

Section Normalizer.
Context `{Host}.

(** [ToNumber(v)], as applied by the operator [-]. A plain object converts
    through [Object.prototype.toString] to NaN, unless an own property
    shadows [toString]: the property of a parsed object is not callable, and
    the conversion throws. *)
Definition ToNumber (v : value) : completion number :=
  match v with
  | VUndefined => Normal NaN
  | VNull => Normal num_zero
  | VBool b => Normal (if b then num_one else num_zero)
  | VNum n => Normal n
  | VStr s => Normal (StringToNumber s)
  | VArr items => s ← ArrayToString items; Normal (StringToNumber s)
  | VObj props =>
      match own_property "toString" props with
      | Some _ => Throw (TypeError "Cannot convert object to primitive value")
      | None => Normal NaN
      end
  end.

(** [(a, b) => (b.score ?? 0) - (a.score ?? 0)] *)
Definition comparefn (a b : value) : completion number :=
  sb ← get b "score";
  sa ← get a "score";
  nb ← ToNumber (nullish sb (VNum num_zero));
  na ← ToNumber (nullish sa (VNum num_zero));
  Normal (num_sub nb na).

(** ** [Array.prototype.sort]

    [SortCompare] is the abstract operation of ECMAScript: [undefined]
    sorts last without a call of the comparator, and a NaN result counts as
    +0.  The order of the calls is left to the engine; the model is the
    stable insertion sort, which every stable sort agrees with whenever the
    comparator is a consistent ordering.  An array of one element is sorted
    without any call.  Where the comparator is not consistent (an entry
    whose score converts to NaN compares as equal to entries that differ
    from one another), the order is left to the engine: the properties that
    name the order the sort leaves are stated for lists of one candidate or
    of candidates the comparator can rank. *)

(** What the sort reads off the result of the comparator: NaN is +0. *)
Definition sort_sign (v : number) : number := if is_nan v then num_zero else v.

Definition SortCompare (cmp : value -> value -> completion number)
    (x y : value) : completion number :=
  match x, y with
  | VUndefined, VUndefined => Normal num_zero
  | VUndefined, _ => Normal num_one
  | _, VUndefined => Normal (Finite (-1))
  | _, _ => v ← cmp x y; Normal (sort_sign v)
  end.

Fixpoint sort_insert (cmp : value -> value -> completion number)
    (x : value) (sorted : list value) : completion (list value) :=
  match sorted with
  | [] => Normal [x]
  | y :: rest =>
      v ← SortCompare cmp x y;
      if num_gtb v num_zero
      then rest' ← sort_insert cmp x rest; Normal (y :: rest')
      else Normal (x :: y :: rest)
  end.

Fixpoint Array_sort (cmp : value -> value -> completion number)
    (items : list value) : completion (list value) :=
  match items with
  | [] => Normal []
  | x :: rest => sorted ← Array_sort cmp rest; sort_insert cmp x sorted
  end.

(** ** [normalizeHfResponse] *)

Record result : Type := mkResult {
  label : string;
  score : number;
  verdict : string
}.

(** The array the variable [candidates] refers to: [json] itself or
    [json[0]]. Sorting [candidates] writes through the reference. *)
Inductive place : Type :=
  | AtJson
  | AtJson0.

Definition deref (json : value) (p : place) : value :=
  match p with
  | AtJson => json
  | AtJson0 => index json 0
  end.

Definition assign (json : value) (p : place) (v : value) : value :=
  match p with
  | AtJson => v
  | AtJson0 =>
      match json with
      | VArr items => VArr (<[0%nat := v]> items)
      | _ => json
      end
  end.

Definition elements (v : value) : list value :=
  match v with VArr items => items | _ => [] end.

Definition string_of (v : value) : string :=
  match v with VStr s => s | _ => "" end.

(** The assignments to [candidates]; [None] is [null]. *)
Definition extract_candidates (json : value) : option place :=
  if isArray json && isArray (index json 0) then Some AtJson0
  else if isArray json then Some AtJson
  else None.

(** The value returned, and the argument as the call leaves it. *)
Definition normalizeHfResponse (json : value) : completion (option result * value) :=
  if negb (ToBoolean json) then Normal (None, json) else
  let candidates := extract_candidates json in
  match candidates with
  | None => Normal (None, json)
  | Some p =>
      let items := elements (deref json p) in
      if (length items =? 0)%nat then Normal (None, json) else
      sorted ← Array_sort comparefn items;
      let json := assign json p (VArr sorted) in
      let top := index (VArr sorted) 0 in
      if negb (ToBoolean top) then Normal (None, json) else
      top_label ← get top "label";
      if negb (String.eqb (typeof top_label) "string") then Normal (None, json) else
      let label := toUpperCase (string_of top_label) in
      top_score ← get top "score";
      let score :=
        match top_score with
        | VNum n => n
        | _ => num_zero
        end in
      let verdict :=
        if String.eqb label "POSITIVE" && num_gtb score num_half then "positive"
        else if String.eqb label "NEGATIVE" && num_gtb score num_half then "negative"
        else "neutral" in
      Normal (Some (mkResult label score verdict), json)
  end.

End Normalizer.

(** ** The page and the global state *)

(** [STATE] *)
Record store : Type := mkStore {
  reviews : list string;
  loaded : bool
}.

(** A call of [fetch]; [req_body] is the object handed to [JSON.stringify]. *)
Record request : Type := mkRequest {
  req_url : string;
  req_method : string;
  req_headers : list (string * string);
  req_body : value
}.

Inductive promise_state : Type :=
  | Pending
  | Fulfilled
  | Rejected (e : error).

(** The document is the finite map from (element id, property) to the text
    of the property; [loading] is the promise made by the latest call of
    [loadTSV]; [requests] lists the calls of [fetch], latest first. *)
Record world : Type := mkWorld {
  STATE : store;
  page : gmap (string * string) string;
  requests : list request;
  loading : promise_state
}.

Definition with_STATE (f : store -> store) (w : world) : world :=
  mkWorld (f (STATE w)) (page w) (requests w) (loading w).
Definition with_page (f : gmap (string * string) string -> gmap (string * string) string)
    (w : world) : world :=
  mkWorld (STATE w) (f (page w)) (requests w) (loading w).
Definition with_requests (f : list request -> list request) (w : world) : world :=
  mkWorld (STATE w) (page w) (f (requests w)) (loading w).
Definition with_loading (f : promise_state -> promise_state) (w : world) : world :=
  mkWorld (STATE w) (page w) (requests w) (f (loading w)).

(** A statement: it changes the world and completes normally or throws. *)
Definition action (A : Type) : Type := world -> world * completion A.

#[global] Instance action_ret : MRet action := fun A a w => (w, Normal a).
#[global] Instance action_bind : MBind action := fun A B f m w =>
  match m w with
  | (w', Normal a) => f a w'
  | (w', Throw e) => (w', Throw e)
  end.

Definition modify (f : world -> world) : action unit := fun w => (f w, Normal tt).
Definition gets {A : Type} (f : world -> A) : action A := fun w => (w, Normal (f w)).
Definition lift {A : Type} (c : completion A) : action A := fun w => (w, c).

(** [try { body } catch (e) { handler e }] *)
Definition try_catch {A : Type} (body : action A) (handler : error -> action A) : action A :=
  fun w =>
    match body w with
    | (w', Throw e) => handler e w'
    | finished => finished
    end.

Definition setAttribute (el attr v : string) : action unit :=
  modify (with_page (insert (el, attr) v)).
Definition removeAttribute (el attr : string) : action unit :=
  modify (with_page (delete (el, attr))).
Definition getAttribute (el attr : string) : action (option string) :=
  gets (fun w => page w !! (el, attr)).
(** [el.textContent = text] *)
Definition setText (el text : string) : action unit := setAttribute el "textContent" text.
(** [el.focus()] *)
Definition focus (el : string) : action unit := setAttribute "document" "activeElement" el.
(** Membership of class [c] in [el.classList] is the property [class:c]. *)
Definition classList_add (el c : string) : action unit := setAttribute el ("class:" +:+ c) "".
Definition classList_remove (el c : string) : action unit := removeAttribute el ("class:" +:+ c).

Definition dquote : string := String (ascii_of_nat 34) EmptyString.

(** [${e?.message || e}] for an [Error] object. *)
Definition error_detail (e : error) : string :=
  if String.eqb (err_message e) "" then err_name e else err_message e.

Definition setStatus (mode text : string) : action unit :=
  classList_remove "loadStatus" "ready";;
  classList_remove "loadStatus" "error";;
  (if negb (String.eqb mode "") then classList_add "loadStatus" mode else mret tt);;
  setText "loadStatus.label" text.

Definition showError (msg : string) : action unit :=
  setText "errorBox" msg;;
  setAttribute "errorBox" "style.display" "block";;
  setAttribute "errorBox" "tabindex" "-1";;
  focus "errorBox".

Definition clearError : action unit :=
  setText "errorBox" "";;
  setAttribute "errorBox" "style.display" "none";;
  removeAttribute "errorBox" "tabindex".

Definition updateCountBadge : action unit :=
  n ← gets (fun w => length (reviews (STATE w)));
  setText "countBadge"
    (pretty n +:+ " review" +:+ (if (n =? 1)%nat then "" else "s") +:+ " loaded").

(** ** [chooseRandom] *)

(** The integer nearest to [y], the even one of two equally near. *)
Definition round_half_even (y : Q) : Z :=
  let m := Qfloor y in
  match (y - inject_Z m ?= 1 # 2)%Q with
  | Lt => m
  | Gt => (m + 1)%Z
  | Eq => if Z.even m then m else (m + 1)%Z
  end.

(** The exponent of a positive [x]: the greatest [e] with [2 ^ e <= x].  The
    difference of the two logarithms is that exponent or one above it. *)
Definition ilog2 (x : Q) : Z :=
  let e := (Z.log2 (Qnum x) - Z.log2 (Zpos (Qden x)))%Z in
  if Qle_bool (2 ^ e) x then e else (e - 1)%Z.

(** The double nearest to a positive [x], ties to even: 53 bits, with
    the last place no lower than [2 ^ -1074]. *)
Definition round_positive (x : Q) : Q :=
  let ulp := (2 ^ Z.max (ilog2 x - 52) (-1074))%Q in
  (inject_Z (round_half_even (x / ulp)) * ulp)%Q.

(** The double a real result is rounded to.  The program rounds one
    product, of a draw below 1 by the length of an array, which is far below
    the range where a double overflows. *)
Definition round_double (x : Q) : Q :=
  match (x ?= 0)%Q with
  | Eq => 0%Q
  | Gt => round_positive x
  | Lt => (- round_positive (- x))%Q
  end.

(** [arr[Math.floor(r * arr.length)]] for the draw [r] of [Math.random()],
    the product rounded to a double; [None] is [undefined]. *)
Definition chooseRandom (r : Q) (arr : list string) : option string :=
  let i := Qfloor (round_double (r * inject_Z (Z.of_nat (length arr)))) in
  if (i <? 0)%Z then None else arr !! Z.to_nat i.

Section Application.
Context `{Host}.

(** [renderSentiment(result)]; the icon element is recorded by the class
    name given to it. The timer that removes [tabindex] again after 200 ms
    is left out. *)
Definition renderSentiment (r : option result) : action unit :=
  removeAttribute "sentimentIcon" "i.className";;
  match r with
  | None =>
      setText "sentimentLabel" "Neutral (no result)";;
      setText "sentimentScore" "Score: —";;
      setAttribute "sentimentIcon" "i.className" "fa-regular fa-circle-question neutral"
  | Some res =>
      (if String.eqb (verdict res) "positive" then
         setText "sentimentLabel" "Positive";;
         mret "fa-solid fa-thumbs-up positive"
       else if String.eqb (verdict res) "negative" then
         setText "sentimentLabel" "Negative";;
         mret "fa-solid fa-thumbs-down negative"
       else
         setText "sentimentLabel" "Neutral";;
         mret "fa-regular fa-circle-question neutral") ≫= fun className =>
      setText "sentimentScore" ("Score: " +:+ toFixed3 (score res));;
      setAttribute "sentimentIcon" "i.className" className
  end;;
  setAttribute "sentimentLabel" "tabindex" "-1";;
  focus "sentimentLabel".

(** ** [loadTSV] *)

(** What Papa Parse reports for the download: it calls [complete] with the
    results or [error] with an [Error] object. *)
Inductive papa_event : Type :=
  | Complete (results : value)
  | Failed (err : error).

(** [r => (r && typeof r.text === 'string') ? r.text.trim() : ''] *)
Definition row_text (r : value) : completion string :=
  if ToBoolean r then
    t ← get r "text";
    if String.eqb (typeof t) "string"
    then t' ← get r "text"; Normal (trim (string_of t'))
    else Normal ""
  else Normal "".

(** [rows.map(f)]: a [TypeError] when [rows] is not an array (no other
    value the parser can hand over has a [map] method). *)
Definition Array_map {A : Type} (f : value -> completion A) (rows : value) : completion (list A) :=
  match rows with
  | VArr items => mapM f items
  | _ => Throw (TypeError "rows.map is not a function")
  end.

(** [resolve()] *)
Definition resolve : action unit :=
  modify (with_loading (fun p => match p with Pending => Fulfilled | settled => settled end)).

(** The [complete] callback. *)
Definition on_complete (results : value) : action unit :=
  try_catch
    (let data := get_opt results "data" in
     let rows := if ToBoolean data then data else VArr [] in
     mapped ← lift (Array_map row_text rows);
     let texts := filter (fun t => (0 <? String.length t)%nat = true) mapped in
     modify (with_STATE (fun s => mkStore texts (loaded s)));;
     modify (with_STATE (fun s => mkStore (reviews s) (0 <? length texts)%nat));;
     updateCountBadge;;
     is_loaded ← gets (fun w => loaded (STATE w));
     (if (is_loaded : bool) then
        setStatus "ready" "TSV loaded";;
        setAttribute "reloadBtn" "aria-busy" "false"
      else
        setStatus "error" "No reviews found in TSV";;
        showError ("No valid " +:+ dquote +:+ "text" +:+ dquote +:+
                   " column values found in reviews_test.tsv.") : action unit);;
     resolve)
    (fun e =>
       setStatus "error" "Parse error";;
       showError ("Failed to parse TSV: " +:+ error_detail e);;
       resolve).

(** The [error] callback. *)
Definition on_error (err : error) : action unit :=
  setStatus "error" "Load failed";;
  showError ("Failed to load TSV: " +:+ error_detail err);;
  resolve.

(** [loadTSV()] followed by the callback Papa Parse makes. *)
Definition loadTSV (ev : papa_event) : action unit :=
  setStatus "" "Loading TSV…";;
  clearError;;
  modify (with_STATE (fun s => mkStore [] (loaded s)));;
  modify (with_STATE (fun s => mkStore (reviews s) false));;
  updateCountBadge;;
  modify (with_loading (fun _ => Pending));;
  match ev with
  | Complete results => on_complete results
  | Failed err => on_error err
  end.

(** ** [analyzeRandom] *)

(** The response of the classifier: its status and what [resp.json()]
    gives, the parsed body or the exception of the parser. *)
Record response : Type := mkResponse {
  status : nat;
  json : completion value
}.

(** [resp.ok] *)
Definition ok (resp : response) : bool :=
  (200 <=? status resp)%nat && (status resp <=? 299)%nat.

(** What one run of [analyzeRandom] meets: the draw of [Math.random()] and
    the outcome of [fetch], a response or the exception of a failed
    request. *)
Record environment : Type := mkEnvironment {
  random : Q;
  fetched : completion response
}.

(** [await fetch(endpoint, init)] with the exception, if any, in hand. *)
Definition fetch (env : environment) (req : request) : action (completion response) :=
  modify (with_requests (cons req));;
  mret (fetched env).

Definition endpoint : string :=
  "https://api-inference.huggingface.co/models/siebert/sentiment-roberta-large-english".

(** The message of the precondition check: Data not loaded. Click 'Reload
    TSV' and ensure reviews_test.tsv is present with a 'text' column (with
    double quotes where this comment has single ones). *)
Definition reload_message : string :=
  "Data not loaded. Click " +:+ dquote +:+ "Reload TSV" +:+ dquote +:+
  " and ensure reviews_test.tsv is present with a " +:+ dquote +:+
  "text" +:+ dquote +:+ " column.".

Definition analyzeRandom (env : environment) : action unit :=
  clearError;;
  st ← gets STATE;
  if negb (loaded st) || (length (reviews st) =? 0)%nat then
    showError reload_message
  else
  setAttribute "analyzeBtn" "aria-busy" "true";;
  let text := chooseRandom (random env) (reviews st) in
  setText "reviewDisplay"
    (match text with
     | Some t => if String.eqb t "" then "(Empty review)" else t
     | None => "(Empty review)"
     end);;
  focus "reviewDisplay";;
  renderSentiment None;;
  token_value ← getAttribute "tokenInput" "value";
  let token := trim (default "" token_value) in
  let headers :=
    ("Content-Type", "application/json") ::
    (if negb (String.eqb token "") then [("Authorization", "Bearer " +:+ token)] else []) in
  let body := VObj [("inputs", from_option VStr VUndefined text)] in
  fetch_result ← fetch env (mkRequest endpoint "POST" headers body);
  match fetch_result with
  | Throw e =>
      setAttribute "analyzeBtn" "aria-busy" "false";;
      showError ("Network error: " +:+ error_detail e)
  | Normal resp =>
      if negb (ok resp) then
        setAttribute "analyzeBtn" "aria-busy" "false";;
        let detail :=
          match json resp with
          | Normal maybe =>
              match get_opt maybe "error" with
              | VStr msg => " — " +:+ msg
              | _ => ""
              end
          | Throw _ => ""
          end in
        if (status resp =? 401)%nat then
          showError ("Unauthorized (401). Invalid or missing token" +:+ detail +:+
                     ". You can try without a token or provide a valid one.")
        else if (status resp =? 429)%nat then
          showError ("Rate limited (429). Please wait and try again" +:+ detail +:+
                     ". Supplying your token may help.")
        else if (status resp =? 503)%nat then
          showError ("Model loading (503). The model is warming up. Please retry in a moment"
                     +:+ detail +:+ ".")
        else
          showError ("API error (" +:+ pretty (status resp) +:+ ")." +:+ detail)
      else
      match json resp with
      | Throw e =>
          setAttribute "analyzeBtn" "aria-busy" "false";;
          showError ("Invalid JSON from API: " +:+ error_detail e)
      | Normal data =>
          result ← lift (fst <$> normalizeHfResponse data);
          renderSentiment result;;
          setAttribute "analyzeBtn" "aria-busy" "false"
      end
  end.

End Application.

(** ** The event handlers

    The listener of [DOMContentLoaded] and the three listeners it attaches.
    A listener attached to an element is recorded in the document under
    the property [on:type] of the element.  An event is handled to its end
    before the next one arrives (the handlers do not overlap), and an
    exception that leaves a listener is reported by the browser and goes no
    further. *)

Section Events.
Context `{Host}.

(** [el.addEventListener(type, handler)] *)
Definition addEventListener (el type handler : string) : action unit :=
  setAttribute el ("on:" +:+ type) handler.

(** Whether a listener for [type] is attached to [el]. *)
Definition listens (el type : string) : action bool :=
  l ← getAttribute el ("on:" +:+ type);
  mret (match l with Some _ => true | None => false end).

(** The listener of the reload button. *)
Definition on_reload (load : papa_event) : action unit :=
  setAttribute "reloadBtn" "aria-busy" "true";;
  loadTSV load;;
  setAttribute "reloadBtn" "aria-busy" "false".

(** The listener of [DOMContentLoaded]. *)
Definition on_DOMContentLoaded (load : papa_event) : action unit :=
  setAttribute "reloadBtn" "aria-busy" "true";;
  loadTSV load;;
  setAttribute "reloadBtn" "aria-busy" "false";;
  addEventListener "reloadBtn" "click" "reload";;
  addEventListener "analyzeBtn" "click" "analyzeRandom";;
  addEventListener "tokenInput" "keydown" "enter".

(** A listener run by the browser: what it throws is not passed on. *)
Definition unhandled (listener : action unit) : action unit :=
  fun w => (fst (listener w), Normal tt).

(** [els.analyzeBtn.click()], and a click of the user on the button. *)
Definition click_analyze (env : environment) : action unit :=
  attached ← listens "analyzeBtn" "click";
  if (attached : bool) then unhandled (analyzeRandom env) else mret tt.

(** What the user and the browser do to the page; each event carries what
    the environment decides while it is handled. *)
Inductive ui_event : Type :=
  | DOMContentLoaded (load : papa_event)
  | ClickReload (load : papa_event)
  | ClickAnalyze (env : environment)
  | KeydownToken (key : string) (env : environment).

Definition handle (e : ui_event) : action unit :=
  match e with
  | DOMContentLoaded load => unhandled (on_DOMContentLoaded load)
  | ClickReload load =>
      attached ← listens "reloadBtn" "click";
      if (attached : bool) then unhandled (on_reload load) else mret tt
  | ClickAnalyze env => click_analyze env
  | KeydownToken key env =>
      attached ← listens "tokenInput" "keydown";
      if (attached : bool)
      then (if String.eqb key "Enter" then click_analyze env else mret tt)
      else mret tt
  end.

(** The events of a session, one after the other. *)
Fixpoint run (events : list ui_event) : action unit :=
  match events with
  | [] => mret tt
  | e :: rest => handle e;; run rest
  end.

End Events.

(** The candidate [{label: l, score: x}]. *)
Definition candidate (l : string) (x : Q) : value :=
  VObj [("label", VStr l); ("score", VNum (Finite x))].

(** A host for evaluating the model on inputs that do not reach the host
    operations with anything but a number to print. *)
Definition plain_host : Host := {|
  StringToNumber := fun _ => NaN;
  ArrayToString := fun _ => Normal "";
  toFixed3 := fun _ => "?";
  ToUppercase := fun s => s
|}.

(** * The vocabulary of the properties *)

(** [x < y] as a proposition, from the order of the rationals. *)
Definition num_lt (x y : number) : Prop :=
  match x, y with
  | NaN, _ | _, NaN => False
  | _, NegInfinity => False
  | NegInfinity, _ => True
  | PosInfinity, _ => False
  | Finite _, PosInfinity => True
  | Finite a, Finite b => (a < b)%Q
  end.

(** The textual label of a candidate, if it has one. *)
Definition label_of (t : value) : option string :=
  match t with
  | VObj props =>
      match own_property "label" props with
      | Some (VStr s) => Some s
      | _ => None
      end
  | _ => None
  end.

(** The numeric score of a candidate, 0 if it has none. *)
Definition score_of (t : value) : number :=
  match t with
  | VObj props =>
      match own_property "score" props with
      | Some (VNum n) => n
      | _ => num_zero
      end
  | _ => num_zero
  end.

(** What the normalizer makes of the candidate it selected. *)
Definition interpret `{Host} (t : value) : option result :=
  match label_of t with
  | Some s =>
      let l := toUpperCase s in
      let x := score_of t in
      Some (mkResult l x
              (if String.eqb l "POSITIVE" && num_gtb x num_half then "positive"
               else if String.eqb l "NEGATIVE" && num_gtb x num_half then "negative"
               else "neutral"))
  | None => None
  end.

(** The candidate list the normalizer selects from. *)
Definition candidate_list (json : value) : option (list value) :=
  p ← extract_candidates json; Some (elements (deref json p)).

(** The [text] field of a row, if it is a string. *)
Definition text_field (r : value) : option string :=
  match r with
  | VObj props =>
      match own_property "text" props with
      | Some (VStr s) => Some s
      | _ => None
      end
  | _ => None
  end.

(** What a row contributes: its [text] field trimmed, provided the field is
    a string and something is left of it after trimming. *)
Definition kept (r : value) : option string :=
  match text_field r with
  | Some s => if String.eqb (trim s) "" then None else Some (trim s)
  | None => None
  end.

(** The surviving texts of the rows, in the order of the rows. *)
Definition survivors (rows : list value) : list string := omap kept rows.

Section Ranking.
Context `{Host}.

(** The number the comparator ranks an entry by: [v.score ?? 0], as the
    operator [-] converts it. *)
Definition sort_key (v : value) : completion number :=
  s ← get v "score"; ToNumber (nullish s (VNum num_zero)).

(** An entry is ranked when its key exists and is not NaN: an object with
    a numeric score or none, in particular. *)
Definition ranked (v : value) : bool :=
  match sort_key v with
  | Normal k => negb (is_nan k)
  | Throw _ => false
  end.

(** The key of a ranked entry. *)
Definition rank (v : value) : number :=
  match sort_key v with
  | Normal k => k
  | Throw _ => NaN
  end.

(** The maximum of the ranks of a list of entries. *)
Definition max_rank (l : list value) : number :=
  foldr (fun v m => if num_ltb m (rank v) then rank v else m) NegInfinity l.

(** The better of an entry and the best of the entries after it: the later
    one only if it ranks strictly higher. *)
Definition keep_first (x : value) (best : option value) : value :=
  match best with
  | Some m => if num_ltb (rank x) (rank m) then m else x
  | None => x
  end.

(** The first entry of maximal rank. *)
Fixpoint first_max (l : list value) : option value :=
  match l with
  | [] => None
  | x :: rest => Some (keep_first x (first_max rest))
  end.

(** Some entry of [l] ranks strictly above [x]. *)
Definition outranked (x : value) (l : list value) : Prop :=
  Exists (fun m => num_ltb (rank x) (rank m) = true) l.

(** The sort would leave [a] before [b]. *)
Definition in_order (a b : value) : Prop :=
  exists v, SortCompare comparefn a b = Normal v /\ num_gtb v num_zero = false.

(** Not ranking below, among ranked entries. *)
Definition not_below (a b : value) : Prop :=
  ranked a = true /\ ranked b = true /\ num_ltb (rank a) (rank b) = false.

End Ranking.

(** ** Loads, analyses and sessions *)

(** The rows the [complete] callback maps over when they can be mapped. *)
Definition rows_of (results : value) : list value :=
  let data := get_opt results "data" in
  elements (if ToBoolean data then data else VArr []).

(** What a load makes of what Papa Parse reports. *)
Definition loaded_store (ev : papa_event) : store :=
  match ev with
  | Complete results =>
      mkStore (survivors (rows_of results)) (0 <? length (survivors (rows_of results)))%nat
  | Failed _ => mkStore [] false
  end.

(** What a load that leaves no review reports: the text of the status chip
    and the message of the error box.  [None] for a load that leaves
    reviews. *)
Definition failure_report (ev : papa_event) : option (string * string) :=
  match ev with
  | Failed err => Some ("Load failed", "Failed to load TSV: " +:+ error_detail err)
  | Complete results =>
      let data := get_opt results "data" in
      if ToBoolean data && negb (isArray data) then
        Some ("Parse error", "Failed to parse TSV: rows.map is not a function")
      else if (0 <? length (survivors (rows_of results)))%nat then None
      else Some ("No reviews found in TSV",
                 "No valid " +:+ dquote +:+ "text" +:+ dquote +:+
                 " column values found in reviews_test.tsv.")
  end.

(** The text [renderSentiment] gives the sentiment label. *)
Definition sentiment_text (r : option result) : string :=
  match r with
  | None => "Neutral (no result)"
  | Some res =>
      if String.eqb (verdict res) "positive" then "Positive"
      else if String.eqb (verdict res) "negative" then "Negative"
      else "Neutral"
  end.

(** The store as every load leaves it: marked loaded exactly when it holds
    a review, every review non-empty and trimmed. *)
Definition store_ok (s : store) : Prop :=
  (loaded s = true <-> reviews s <> []) /\
  Forall (fun t => t <> "" /\ trim t = t) (reviews s).

(** A request that carries a review: a POST to the endpoint of the
    classifier whose body is [{inputs: t}] for a non-empty, trimmed [t]. *)
Definition request_ok (req : request) : Prop :=
  req_url req = endpoint /\ req_method req = "POST" /\
  exists t : string, req_body req = VObj [("inputs", VStr t)] /\ t <> "" /\ trim t = t.

(** What [Math.random()] returns: a double in [[0, 1)], the greatest of
    which is [1 - 2 ^ -53]. *)
Definition unit_draw (r : Q) : Prop := (0 <= r)%Q /\ (r <= 1 - 2 ^ (-53))%Q.

(** An event of the user after the page is set up, with a draw that
    [Math.random()] can return. *)
Definition user_event (e : ui_event) : Prop :=
  match e with
  | ClickAnalyze env | KeydownToken _ env => unit_draw (random env)
  | ClickReload _ => True
  | DOMContentLoaded _ => False
  end.

(** A mode [classList.add] takes: it holds no white space. *)
Definition class_token (mode : string) : Prop :=
  Forall (fun c => is_space c = false) (list_ascii_of_string mode).

(** The three listeners are attached. *)
Definition wired (w : world) : Prop :=
  page w !! ("reloadBtn", "on:click") = Some "reload" /\
  page w !! ("analyzeBtn", "on:click") = Some "analyzeRandom" /\
  page w !! ("tokenInput", "on:keydown") = Some "enter".

(** No listener is attached. *)
Definition unwired (w : world) : Prop :=
  page w !! ("reloadBtn", "on:click") = None /\
  page w !! ("analyzeBtn", "on:click") = None /\
  page w !! ("tokenInput", "on:keydown") = None.

(** The page once the three listeners are attached, before any review is
    loaded. *)
Definition wired_page : world :=
  mkWorld (mkStore [] false)
    (<[("tokenInput", "on:keydown") := "enter"]>
       (<[("analyzeBtn", "on:click") := "analyzeRandom"]>
          (<[("reloadBtn", "on:click") := "reload"]> ∅)))
    [] Pending.

(** A load of two rows, the second of which is blank. *)
Definition two_rows : papa_event :=
  Complete (VObj [("data", VArr [VObj [("text", VStr " good ")]; VObj [("text", VStr "  ")]])]).

(** * Properties *)

(** ** Order on numbers *)

Lemma Qlt_bool_iff (a b : Q) : Qlt_bool a b = true <-> (a < b)%Q.
Proof.
  unfold Qlt_bool. rewrite negb_true_iff. split.
  - intros Hle. apply Qnot_le_lt. intros Hba.
    apply Qle_bool_iff in Hba. congruence.
  - intros Hlt. destruct (Qle_bool b a) eqn:E; [|reflexivity].
    apply Qle_bool_iff in E. exfalso. apply (Qlt_not_le _ _ Hlt E).
Qed.

Lemma num_ltb_lt (x y : number) : num_ltb x y = true <-> num_lt x y.
Proof.
  destruct x, y; simpl; try apply Qlt_bool_iff; split; intros; try discriminate; tauto.
Qed.

Lemma num_ltb_ge (x y : number) : num_ltb x y = false <-> ~ num_lt x y.
Proof.
  rewrite <- num_ltb_lt. destruct (num_ltb x y); split; intros; congruence.
Qed.

Lemma num_lt_irrefl (x : number) : ~ num_lt x x.
Proof. destruct x; simpl; try tauto. lra. Qed.

Lemma num_lt_trans (x y z : number) : num_lt x y -> num_lt y z -> num_lt x z.
Proof. destruct x, y, z; simpl; try tauto. lra. Qed.

(** Among numbers that are not NaN the order is total. *)
Lemma num_lt_le_trans (x y z : number) :
  is_nan z = false -> num_lt x y -> ~ num_lt z y -> num_lt x z.
Proof. destruct x, y, z; simpl; try tauto; try discriminate. lra. Qed.

Lemma num_le_lt_trans (x y z : number) :
  is_nan x = false -> ~ num_lt y x -> num_lt y z -> num_lt x z.
Proof. destruct x, y, z; simpl; try tauto; try discriminate. lra. Qed.

Lemma sort_sign_sub (x y : number) :
  is_nan x = false -> is_nan y = false ->
  num_gtb (sort_sign (num_sub y x)) num_zero = num_ltb x y.
Proof.
  intros Hx Hy. unfold num_gtb, sort_sign, num_zero.
  destruct x, y; try discriminate; simpl; try reflexivity.
  - unfold Qlt_bool. f_equal.
    destruct (Qle_bool (q0 - q) 0) eqn:E1, (Qle_bool q0 q) eqn:E2; try reflexivity.
    + apply Qle_bool_iff in E1.
      assert (~ (q0 <= q)%Q) by (intros Hc; apply Qle_bool_iff in Hc; congruence).
      exfalso. lra.
    + apply Qle_bool_iff in E2.
      assert (~ (q0 - q <= 0)%Q) by (intros Hc; apply Qle_bool_iff in Hc; congruence).
      exfalso. lra.
Qed.

(** Whatever the two numbers, a difference and its opposite are not both
    positive. *)
Lemma sort_sign_antisym (x y : number) :
  num_gtb (sort_sign (num_sub y x)) num_zero = true ->
  num_gtb (sort_sign (num_sub x y)) num_zero = false.
Proof.
  unfold num_gtb, sort_sign, num_zero.
  destruct x, y; simpl; try discriminate; try reflexivity.
  rewrite Qlt_bool_iff. intros Hlt.
  destruct (Qlt_bool 0 (q - q0)) eqn:E; [|reflexivity].
  apply Qlt_bool_iff in E. exfalso. lra.
Qed.

(** ** The normalizer, step by step *)

Section NormalizerFacts.
Context `{Host}.

Lemma extract_candidates_array (json : value) (p : place) :
  extract_candidates json = Some p -> exists items, json = VArr items.
Proof.
  unfold extract_candidates. destruct json; simpl; try discriminate. eauto.
Qed.

Lemma normalize_falsy (json : value) :
  ToBoolean json = false -> normalizeHfResponse json = Normal (None, json).
Proof. intros Hf. unfold normalizeHfResponse. rewrite Hf. reflexivity. Qed.

Lemma normalize_no_candidates (json : value) :
  extract_candidates json = None -> normalizeHfResponse json = Normal (None, json).
Proof.
  intros Hn. unfold normalizeHfResponse. rewrite Hn.
  destruct (negb (ToBoolean json)); reflexivity.
Qed.

Lemma normalize_empty (json : value) (p : place) :
  extract_candidates json = Some p -> elements (deref json p) = [] ->
  normalizeHfResponse json = Normal (None, json).
Proof.
  intros Hp He. unfold normalizeHfResponse. rewrite Hp, He.
  destruct (negb (ToBoolean json)); reflexivity.
Qed.

Lemma normalize_sort_throws (json : value) (p : place) (e : error) :
  extract_candidates json = Some p -> elements (deref json p) <> [] ->
  Array_sort comparefn (elements (deref json p)) = Throw e ->
  normalizeHfResponse json = Throw e.
Proof.
  intros Hp Hne Hs. destruct (extract_candidates_array _ _ Hp) as [items ->].
  unfold normalizeHfResponse. rewrite Hp. simpl ToBoolean. simpl negb. cbv iota.
  destruct (elements (deref (VArr items) p)) as [|c cs] eqn:E; [congruence|].
  simpl length. simpl Nat.eqb. cbv iota. rewrite Hs. reflexivity.
Qed.

Lemma interpret_top (json : value) (t : value) :
  (if negb (ToBoolean t) then Normal (None, json) else
   top_label ← get t "label";
   if negb (String.eqb (typeof top_label) "string") then Normal (None, json) else
   let label := toUpperCase (string_of top_label) in
   top_score ← get t "score";
   let score := match top_score with VNum n => n | _ => num_zero end in
   let verdict :=
     if String.eqb label "POSITIVE" && num_gtb score num_half then "positive"
     else if String.eqb label "NEGATIVE" && num_gtb score num_half then "negative"
     else "neutral" in
   Normal (Some (mkResult label score verdict), json))
  = Normal (interpret t, json).
Proof.
  destruct t as [| |b|n|s|items|props]; try reflexivity.
  - destruct b; reflexivity.
  - destruct (ToBoolean (VNum n)); reflexivity.
  - destruct (ToBoolean (VStr s)); reflexivity.
  - unfold interpret, label_of, score_of. simpl ToBoolean. simpl negb. cbv iota.
    simpl get.
    destruct (own_property "label" props) as [[| |b|n|s|items|props']|]; try reflexivity.
    simpl. destruct (own_property "score" props) as [[| |b|n|s'|items|props']|]; reflexivity.
Qed.

(** The one path on which the normalizer reaches its decision rule. *)
Lemma normalize_sorted (json : value) (p : place) (sorted : list value) :
  extract_candidates json = Some p -> elements (deref json p) <> [] ->
  Array_sort comparefn (elements (deref json p)) = Normal sorted ->
  normalizeHfResponse json
  = Normal (interpret (default VUndefined (sorted !! 0%nat)), assign json p (VArr sorted)).
Proof.
  intros Hp Hne Hs. destruct (extract_candidates_array _ _ Hp) as [items ->].
  unfold normalizeHfResponse. rewrite Hp. simpl ToBoolean. simpl negb. cbv iota.
  destruct (elements (deref (VArr items) p)) as [|c cs] eqn:E; [congruence|].
  simpl length. simpl Nat.eqb. cbv iota. rewrite Hs.
  change (Normal sorted ≫= ?f) with (f sorted). cbv beta zeta.
  apply interpret_top.
Qed.

End NormalizerFacts.

(** ** The sort *)

Lemma bind_Normal_inv {A B : Type} (c : completion A) (f : A -> completion B) (b : B) :
  c ≫= f = Normal b -> exists a, c = Normal a /\ f a = Normal b.
Proof. destruct c as [a|e]; simpl; [eauto | discriminate]. Qed.

Lemma bind_Throw_inv {A B : Type} (c : completion A) (f : A -> completion B) (e : error) :
  c ≫= f = Throw e -> c = Throw e \/ exists a, c = Normal a /\ f a = Throw e.
Proof. destruct c as [a|e']; simpl; [eauto | intros [= ->]; eauto]. Qed.

Section SortFacts.
Context `{Host}.
Variable cmp : value -> value -> completion number.

Lemma sort_insert_perm (x : value) (s s' : list value) :
  sort_insert cmp x s = Normal s' -> s' ≡ₚ x :: s.
Proof.
  revert s'. induction s as [|y rest IH]; intros s' Hs.
  - injection Hs as <-. reflexivity.
  - cbn [sort_insert] in Hs. apply bind_Normal_inv in Hs as (v & _ & Hs).
    destruct (num_gtb v num_zero).
    + apply bind_Normal_inv in Hs as (r & Hr & [= <-]).
      rewrite (IH r Hr). apply perm_swap.
    + injection Hs as <-. reflexivity.
Qed.

Lemma Array_sort_perm (items sorted : list value) :
  Array_sort cmp items = Normal sorted -> sorted ≡ₚ items.
Proof.
  revert sorted. induction items as [|x rest IH]; intros sorted Hs.
  - injection Hs as <-. reflexivity.
  - cbn [Array_sort] in Hs. apply bind_Normal_inv in Hs as (s & Hrest & Hs).
    rewrite (sort_insert_perm _ _ _ Hs). rewrite (IH s Hrest). reflexivity.
Qed.

Lemma Array_sort_nonempty (items sorted : list value) :
  Array_sort cmp items = Normal sorted -> items <> [] -> sorted <> [].
Proof.
  intros Hs Hne Hnil. subst sorted. apply Array_sort_perm in Hs.
  symmetry in Hs. apply Permutation_nil_r in Hs. congruence.
Qed.

End SortFacts.

(** ** The claims about the normalizer *)

Section NormalizerClaims.
Context `{Host}.

Lemma get_string_label (t : value) (s : string) :
  get t "label" = Normal (VStr s) -> label_of t = Some s.
Proof.
  destruct t as [| |b|n|s0|items|props]; simpl; try discriminate.
  intros [= Hl]. destruct (own_property "label" props) as [v|]; simpl in Hl; [|discriminate].
  subst v. reflexivity.
Qed.

Lemma get_number_score (t : value) (x : number) :
  get t "score" = Normal (VNum x) -> score_of t = x.
Proof.
  destruct t as [| |b|n|s0|items|props]; simpl; try discriminate.
  intros [= Hl]. destruct (own_property "score" props) as [v|]; simpl in Hl; [|discriminate].
  subst v. reflexivity.
Qed.

Lemma interpret_verdict (t : value) (r : result) :
  interpret t = Some r ->
  (exists s, label_of t = Some s /\ label r = toUpperCase s /\ score r = score_of t) /\
  (verdict r = "positive" <-> label r = "POSITIVE" /\ num_lt num_half (score r)) /\
  (verdict r = "negative" <-> label r = "NEGATIVE" /\ num_lt num_half (score r)) /\
  (verdict r = "neutral" <->
   ~ ((label r = "POSITIVE" \/ label r = "NEGATIVE") /\ num_lt num_half (score r))).
Proof.
  unfold interpret. destruct (label_of t) as [s|]; [|discriminate]. cbv zeta.
  assert (Hgt : num_gtb (score_of t) num_half = true <-> num_lt num_half (score_of t))
    by apply num_ltb_lt.
  destruct (num_gtb (score_of t) num_half);
    intros [= <-]; cbn [label score verdict]; (split; [eauto|]);
    generalize dependent (toUpperCase s); intros S;
    destruct (String.eqb_spec S "POSITIVE") as [Hpos|Hpos];
    destruct (String.eqb_spec S "NEGATIVE") as [Hneg|Hneg]; cbn [andb];
    repeat split; intros; try reflexivity; try discriminate; try congruence;
    try (apply Hgt; reflexivity);
    try (exfalso; intuition congruence);
    try (intuition congruence).
Qed.

(** A result is what the decision rule makes of one of the candidates. *)
Lemma normalize_result (json : value) (r : result) (after : value) :
  normalizeHfResponse json = Normal (Some r, after) ->
  exists (l : list value) (t : value),
    candidate_list json = Some l /\ t ∈ l /\ interpret t = Some r.
Proof.
  intros Hn.
  destruct (extract_candidates json) as [p|] eqn:Hp.
  2:{ rewrite (normalize_no_candidates json Hp) in Hn. discriminate. }
  destruct (elements (deref json p)) as [|c cs] eqn:He.
  { rewrite (normalize_empty json p Hp He) in Hn. discriminate. }
  assert (Hne : elements (deref json p) <> []) by (rewrite He; discriminate).
  destruct (Array_sort comparefn (elements (deref json p))) as [sorted|e] eqn:Hs.
  2:{ rewrite (normalize_sort_throws json p e Hp Hne Hs) in Hn. discriminate. }
  rewrite (normalize_sorted json p sorted Hp Hne Hs) in Hn. injection Hn as Hr _.
  exists (elements (deref json p)), (default VUndefined (sorted !! 0%nat)).
  split; [unfold candidate_list; rewrite Hp; reflexivity|]. split; [|exact Hr].
  rewrite <- (Array_sort_perm _ _ _ Hs).
  destruct sorted as [|t0 rest]; [discriminate Hr | left].
Qed.

(** C1. The verdict follows the strict threshold rule on the label, in
    upper case, and the score of the candidate decided on: POSITIVE above 0.5
    is positive, NEGATIVE above 0.5 is negative, anything else is neutral,
    and a score of exactly 0.5 is neutral whatever the label.  Every result
    the normalizer returns is made so from a candidate with a textual
    label, whichever candidate the sort has put first; and where every
    candidate carries a score the comparator can rank, so that the order the
    sort leaves is settled, the candidate it puts first, if it has a
    textual label and a numeric score, gives the result. *)
Theorem verdict_follows_strict_threshold (json : value) :
  (forall (r : result) (after : value),
     normalizeHfResponse json = Normal (Some r, after) ->
     exists (l : list value) (top : value) (s : string),
       candidate_list json = Some l /\ top ∈ l /\ label_of top = Some s /\
       label r = toUpperCase s /\ score r = score_of top /\
       (toUpperCase s = "POSITIVE" -> num_lt num_half (score r) -> verdict r = "positive") /\
       (toUpperCase s = "NEGATIVE" -> num_lt num_half (score r) -> verdict r = "negative") /\
       (toUpperCase s <> "POSITIVE" /\ toUpperCase s <> "NEGATIVE" \/
        ~ num_lt num_half (score r) -> verdict r = "neutral") /\
       (forall q : Q, score r = Finite q -> (q == 1 # 2)%Q -> verdict r = "neutral")) /\
  (forall (p : place) (sorted : list value) (top : value) (s : string) (x : number),
     extract_candidates json = Some p ->
     Forall (fun v => ranked v = true) (elements (deref json p)) ->
     Array_sort comparefn (elements (deref json p)) = Normal sorted ->
     sorted !! 0%nat = Some top ->
     get top "label" = Normal (VStr s) ->
     get top "score" = Normal (VNum x) ->
     exists (r : result) (after : value),
       normalizeHfResponse json = Normal (Some r, after) /\
       label r = toUpperCase s /\
       score r = x /\
       (toUpperCase s = "POSITIVE" -> num_lt num_half x -> verdict r = "positive") /\
       (toUpperCase s = "NEGATIVE" -> num_lt num_half x -> verdict r = "negative") /\
       (toUpperCase s <> "POSITIVE" /\ toUpperCase s <> "NEGATIVE" \/ ~ num_lt num_half x ->
        verdict r = "neutral") /\
       (forall q : Q, x = Finite q -> (q == 1 # 2)%Q -> verdict r = "neutral")).
Proof.
  split.
  - intros r after Hn.
    destruct (normalize_result json r after Hn) as (l & top & Hl & Hin & Hr).
    apply interpret_verdict in Hr as ((s & Hs & Hlabel & Hscore) & Hpos & Hneg & Hneu).
    exists l, top, s. rewrite <- Hlabel.
    repeat (split; [solve [auto]|]). split; [|split; [|split]].
    + intros Hp Hgt. apply Hpos. auto.
    + intros Hp Hgt. apply Hneg. auto.
    + intros Hno. apply Hneu. intuition.
    + intros q Hq Hhalf. apply Hneu. rewrite Hq. simpl. intros [_ Hlt]. lra.
  - intros p sorted top s x Hp _ Hs Htop Hl Hx.
    assert (Hne : elements (deref json p) <> []).
    { intros Hnil. rewrite Hnil in Hs. injection Hs as <-. discriminate. }
    rewrite (normalize_sorted json p sorted Hp Hne Hs), Htop. simpl default.
    unfold interpret. rewrite (get_string_label _ _ Hl), (get_number_score _ _ Hx).
    cbv zeta. eexists _, _. split; [reflexivity|]. cbn [label score verdict].
    assert (Hgt : num_gtb x num_half = true <-> num_lt num_half x) by apply num_ltb_lt.
    assert (Hhalf : forall q : Q, x = Finite q -> (q == 1 # 2)%Q -> ~ num_lt num_half x).
    { intros q -> Hq. simpl. lra. }
    generalize dependent (toUpperCase s). intros S.
    destruct (String.eqb_spec S "POSITIVE") as [Hpos|Hpos];
      destruct (String.eqb_spec S "NEGATIVE") as [Hneg|Hneg];
      destruct (num_gtb x num_half); cbn [andb];
      repeat split; intros; try reflexivity; try congruence;
      try (exfalso; intuition congruence);
      try (exfalso; eapply Hhalf; eauto; apply Hgt; reflexivity).
Qed.

(** C3. Degenerate inputs give no result: a falsy input (null and undefined
    among them), the empty list, a list that starts with the empty list, an
    input that is not a list, and any input whose selected candidate is
    absent or has no textual label.  The selected candidate is the one the
    sort puts first; the order is settled, whatever the engine, for a list
    of one candidate and for a list whose candidates all carry a score the
    comparator can rank.  Whatever the order, a list in which no candidate
    has a textual label gives no result. *)
Theorem degenerate_inputs_give_null :
  (forall json : value, ToBoolean json = false ->
     normalizeHfResponse json = Normal (None, json)) /\
  normalizeHfResponse VNull = Normal (None, VNull) /\
  normalizeHfResponse VUndefined = Normal (None, VUndefined) /\
  normalizeHfResponse (VArr []) = Normal (None, VArr []) /\
  (forall rest : list value,
     normalizeHfResponse (VArr (VArr [] :: rest)) = Normal (None, VArr (VArr [] :: rest))) /\
  (forall json : value, isArray json = false ->
     normalizeHfResponse json = Normal (None, json)) /\
  (forall (json : value) (p : place) (sorted : list value),
     extract_candidates json = Some p ->
     (exists v, elements (deref json p) = [v]) \/
     Forall (fun v => ranked v = true) (elements (deref json p)) ->
     Array_sort comparefn (elements (deref json p)) = Normal sorted ->
     let top := index (VArr sorted) 0 in
     ToBoolean top = false \/
     (exists l : value, get top "label" = Normal l /\ typeof l <> "string") ->
     fst <$> normalizeHfResponse json = Normal None) /\
  (forall (json : value) (l : list value) (r : option result) (after : value),
     candidate_list json = Some l ->
     Forall (fun v => label_of v = None) l ->
     normalizeHfResponse json = Normal (r, after) ->
     r = None).
Proof.
  repeat split; try reflexivity.
  - apply normalize_falsy.
  - intros json Harr. apply normalize_no_candidates.
    unfold extract_candidates. rewrite Harr. reflexivity.
  - intros json p sorted Hp _ Hs top Htop.
    destruct (elements (deref json p)) as [|c cs] eqn:He.
    + rewrite (normalize_empty json p Hp He). reflexivity.
    + assert (Hne : elements (deref json p) <> []) by (rewrite He; discriminate).
      rewrite <- He in Hs.
      rewrite (normalize_sorted json p sorted Hp Hne Hs). simpl fmap.
      change (default VUndefined (sorted !! 0%nat)) with top.
      cut (interpret top = None); [intros ->; reflexivity|].
      unfold interpret. cut (label_of top = None); [intros ->; reflexivity|].
      destruct Htop as [Hfalsy | (l & Hl & Hty)].
      * destruct top; simpl in Hfalsy; try discriminate; reflexivity.
      * destruct top as [| |b|n|s0|items|props]; try reflexivity.
        simpl in Hl. injection Hl as Hl. unfold label_of.
        destruct (own_property "label" props) as [v|]; [|reflexivity].
        simpl in Hl. subst v. destruct l; try reflexivity. exfalso. apply Hty. reflexivity.
  - intros json l r after Hl Hall Hn. destruct r as [r|]; [|reflexivity].
    destruct (normalize_result json r after Hn) as (l' & t & Hl' & Hin & Hr).
    rewrite Hl in Hl'. injection Hl' as <-.
    rewrite Forall_forall in Hall. unfold interpret in Hr.
    rewrite (Hall t Hin) in Hr. discriminate.
Qed.

(** C4. A flat list of candidates is itself the candidate list, and is
    selected from and decided on exactly as the same list wrapped in an outer
    list; the flat list of the one candidate POSITIVE at 0.9 gives POSITIVE,
    0.9, positive. *)
Theorem flat_list_is_candidate_list :
  (forall cs : list value,
     isArray (index (VArr cs) 0) = false ->
     extract_candidates (VArr cs) = Some AtJson /\
     deref (VArr cs) AtJson = VArr cs /\
     fst <$> normalizeHfResponse (VArr cs) = fst <$> normalizeHfResponse (VArr [VArr cs])) /\
  normalizeHfResponse (VArr [candidate "POSITIVE" (9 # 10)])
  = Normal (Some (mkResult "POSITIVE" (Finite (9 # 10)) "positive"),
            VArr [candidate "POSITIVE" (9 # 10)]).
Proof.
  split; [|reflexivity].
  intros cs Hflat.
  assert (Hp : extract_candidates (VArr cs) = Some AtJson).
  { unfold extract_candidates. rewrite Hflat. reflexivity. }
  assert (Hp' : extract_candidates (VArr [VArr cs]) = Some AtJson0) by reflexivity.
  repeat split; [exact Hp|].
  destruct cs as [|c cs]; [reflexivity|].
  destruct (Array_sort comparefn (c :: cs)) as [sorted|e] eqn:Hs.
  - rewrite (normalize_sorted (VArr (c :: cs)) AtJson sorted Hp); [|discriminate|exact Hs].
    rewrite (normalize_sorted (VArr [VArr (c :: cs)]) AtJson0 sorted Hp'); [|discriminate|exact Hs].
    reflexivity.
  - rewrite (normalize_sort_throws (VArr (c :: cs)) AtJson e Hp); [|discriminate|exact Hs].
    rewrite (normalize_sort_throws (VArr [VArr (c :: cs)]) AtJson0 e Hp'); [|discriminate|exact Hs].
    reflexivity.
Qed.

(** C5, as amended. The normalizer does no input or output and its outcome
    is a function of the value of its argument, but the argument is not left
    as it was: whenever the normalizer returns, the argument afterwards is
    the argument before with, at most, the selected candidate list ([json[0]]
    for the nested shape, [json] for the flat one) replaced by a permutation
    of itself. *)
Theorem normalize_only_reorders_candidates
    (json : value) (r : option result) (after : value) :
  normalizeHfResponse json = Normal (r, after) ->
  (after = json \/
   (exists items rest sorted : list value,
      json = VArr (VArr items :: rest) /\
      after = VArr (VArr sorted :: rest) /\ sorted ≡ₚ items) \/
   (exists items sorted : list value,
      json = VArr items /\ after = VArr sorted /\ sorted ≡ₚ items)) /\
  (forall json' : value, json' = json -> normalizeHfResponse json' = Normal (r, after)).
Proof.
  intros Hn. split; [|intros json' ->; exact Hn].
  destruct (extract_candidates json) as [p|] eqn:Hp.
  2:{ rewrite (normalize_no_candidates json Hp) in Hn. injection Hn as _ <-. left. reflexivity. }
  destruct (elements (deref json p)) as [|c cs] eqn:He.
  { rewrite (normalize_empty json p Hp He) in Hn. injection Hn as _ <-. left. reflexivity. }
  assert (Hne : elements (deref json p) <> []) by (rewrite He; discriminate).
  destruct (Array_sort comparefn (elements (deref json p))) as [sorted|e] eqn:Hs.
  2:{ rewrite (normalize_sort_throws json p e Hp Hne Hs) in Hn. discriminate. }
  rewrite (normalize_sorted json p sorted Hp Hne Hs) in Hn. injection Hn as _ <-.
  apply Array_sort_perm in Hs.
  destruct (extract_candidates_array json p Hp) as [items ->].
  right. destruct p.
  - right. exists items, sorted. simpl in Hs. auto.
  - left. destruct items as [|[| |b|n|s0|inner|props] rest]; try discriminate.
    exists inner, rest, sorted. simpl in Hs. auto.
Qed.

(** C6, the failing input. A candidate list that holds [null] next to
    another entry makes the comparator read [null.score]: the normalizer
    throws a [TypeError] where its documentation promises [null]. *)
Theorem normalize_throws_on_null_entry :
  normalizeHfResponse (VArr [VArr [VNull; candidate "POSITIVE" (9 # 10)]])
  = Throw (TypeError "Cannot read properties of null (reading 'score')").
Proof. reflexivity. Qed.

(** X1. The threshold on a single candidate: [[[{label: 'POSITIVE', score: q}]]]
    is positive above 0.5 and neutral at or below it, and likewise for
    NEGATIVE. *)
Theorem single_candidate_threshold (q : Q) :
  (exists r : result,
     fst <$> normalizeHfResponse (VArr [VArr [candidate "POSITIVE" q]]) = Normal (Some r) /\
     label r = "POSITIVE" /\ score r = Finite q /\
     ((1 # 2 < q)%Q -> verdict r = "positive") /\
     ((q <= 1 # 2)%Q -> verdict r = "neutral")) /\
  (exists r : result,
     fst <$> normalizeHfResponse (VArr [VArr [candidate "NEGATIVE" q]]) = Normal (Some r) /\
     label r = "NEGATIVE" /\ score r = Finite q /\
     ((1 # 2 < q)%Q -> verdict r = "negative") /\
     ((q <= 1 # 2)%Q -> verdict r = "neutral")).
Proof.
  split.
  - exists (mkResult "POSITIVE" (Finite q)
              (if Qlt_bool (1 # 2) q then "positive" else "neutral")).
    split; [reflexivity|]. cbn [label score verdict].
    split; [reflexivity|]. split; [reflexivity|].
    destruct (Qlt_bool (1 # 2) q) eqn:Hq; split; intros Hlt; try reflexivity; exfalso.
    + apply Qlt_bool_iff in Hq. lra.
    + apply Qlt_bool_iff in Hlt. congruence.
  - exists (mkResult "NEGATIVE" (Finite q)
              (if Qlt_bool (1 # 2) q then "negative" else "neutral")).
    split; [reflexivity|]. cbn [label score verdict].
    split; [reflexivity|]. split; [reflexivity|].
    destruct (Qlt_bool (1 # 2) q) eqn:Hq; split; intros Hlt; try reflexivity; exfalso.
    + apply Qlt_bool_iff in Hq. lra.
    + apply Qlt_bool_iff in Hlt. congruence.
Qed.

Lemma comparefn_null_throws (a b : value) :
  a = VNull \/ b = VNull -> exists e, comparefn a b = Throw e.
Proof.
  intros [-> | ->]; unfold comparefn.
  - destruct (get b "score") as [sb|e]; [|eauto]. cbn [mbind completion_bind get]. eauto.
  - cbn [mbind completion_bind get]. eauto.
Qed.

Lemma sort_insert_null_throws (x y : value) (rest : list value) :
  x <> VUndefined -> y <> VUndefined -> x = VNull \/ y = VNull ->
  exists e, sort_insert comparefn x (y :: rest) = Throw e.
Proof.
  intros Hx Hy Hnull. destruct (comparefn_null_throws x y Hnull) as (e & He).
  exists e. cbn [sort_insert]. unfold SortCompare. rewrite He.
  destruct x, y; try congruence; reflexivity.
Qed.

(** X2. The defect behind C6 in general: a list parsed from JSON (it holds no
    [undefined]) with two or more entries, one of them [null], always makes
    the normalizer throw. *)
Theorem null_entry_among_others_throws (items rest : list value) :
  2 <= length items -> VNull ∈ items -> VUndefined ∉ items ->
  exists e : error, normalizeHfResponse (VArr (VArr items :: rest)) = Throw e.
Proof.
  intros Hlen Hnull Hundef.
  cut (exists e, Array_sort comparefn items = Throw e).
  { intros (e & He). exists e.
    apply (normalize_sort_throws (VArr (VArr items :: rest)) AtJson0 e); [reflexivity | | exact He].
    cbn. intros ->. cbn in Hlen. lia. }
  clear rest. induction items as [|x items IH]; [cbn in Hlen; lia|].
  cbn [Array_sort].
  destruct (Array_sort comparefn items) as [s|e] eqn:Hs; [|eauto].
  cbn [mbind completion_bind].
  pose proof (Array_sort_perm comparefn items s Hs) as Hperm.
  destruct s as [|y s'].
  { apply Permutation_nil_l in Hperm. subst items. cbn in Hlen. lia. }
  assert (Hy : y ∈ items) by (rewrite <- Hperm; left).
  apply sort_insert_null_throws.
  - intros ->. apply Hundef. left.
  - intros ->. apply Hundef. right. exact Hy.
  - apply elem_of_cons in Hnull as [<- | Hnull]; [left; reflexivity|].
    right. destruct items as [|i1 [|i2 items]].
    + inversion Hnull.
    + apply list_elem_of_singleton in Hnull. subst i1.
      apply Permutation_singleton_r in Hperm. congruence.
    + exfalso. destruct IH as (e & He); [cbn; lia | exact Hnull | | congruence].
      intros Hin. apply Hundef. right. exact Hin.
Qed.

End NormalizerClaims.

(** C1, at the input [[[{label: 'Positive', score: 0.5}]]]. *)
Lemma verdict_follows_strict_threshold_witness :
  exists (r : result) (after : value),
    @normalizeHfResponse plain_host (VArr [VArr [candidate "Positive" (1 # 2)]])
    = Normal (Some r, after) /\
    label r = "POSITIVE" /\ verdict r = "neutral".
Proof.
  destruct (proj2 (@verdict_follows_strict_threshold plain_host
                     (VArr [VArr [candidate "Positive" (1 # 2)]])) AtJson0
              [candidate "Positive" (1 # 2)] (candidate "Positive" (1 # 2))
              "Positive" (Finite (1 # 2)) eq_refl
              ltac:(repeat constructor) eq_refl eq_refl eq_refl eq_refl)
    as (r & after & Hn & Hl & _ & _ & _ & _ & Hhalf).
  exists r, after. split; [exact Hn|]. split; [exact Hl|].
  apply (Hhalf (1 # 2)); reflexivity.
Defined.

(** C3, at the input [[[null]]], whose selected candidate is absent. *)
Lemma degenerate_inputs_give_null_witness :
  fst <$> @normalizeHfResponse plain_host (VArr [VArr [VNull]]) = Normal None.
Proof.
  apply (proj1 (proj2 (proj2 (proj2 (proj2 (proj2 (proj2
           (@degenerate_inputs_give_null plain_host))))))) (VArr [VArr [VNull]]) AtJson0
           [VNull] eq_refl (or_introl (ex_intro _ VNull eq_refl)) eq_refl).
  left. reflexivity.
Defined.

(** C4, at the flat list of two candidates. *)
Lemma flat_list_is_candidate_list_witness :
  fst <$> @normalizeHfResponse plain_host
            (VArr [candidate "NEGATIVE" (1 # 10); candidate "POSITIVE" (9 # 10)])
  = fst <$> @normalizeHfResponse plain_host
            (VArr [VArr [candidate "NEGATIVE" (1 # 10); candidate "POSITIVE" (9 # 10)]]).
Proof.
  apply (proj1 (@flat_list_is_candidate_list plain_host)
           [candidate "NEGATIVE" (1 # 10); candidate "POSITIVE" (9 # 10)] eq_refl).
Defined.

(** C5, the counterexample: the call on
    [[[{NEGATIVE, 0.1}, {POSITIVE, 0.9}]]] leaves the inner list in the
    opposite order. *)
Lemma normalize_reorders_its_argument :
  snd <$> @normalizeHfResponse plain_host
            (VArr [VArr [candidate "NEGATIVE" (1 # 10); candidate "POSITIVE" (9 # 10)]])
  = Normal (VArr [VArr [candidate "POSITIVE" (9 # 10); candidate "NEGATIVE" (1 # 10)]]) /\
  VArr [VArr [candidate "POSITIVE" (9 # 10); candidate "NEGATIVE" (1 # 10)]]
  <> VArr [VArr [candidate "NEGATIVE" (1 # 10); candidate "POSITIVE" (9 # 10)]].
Proof. split; [reflexivity | discriminate]. Qed.

(** C5 as amended, at the same input. *)
Lemma normalize_only_reorders_candidates_witness :
  let json := VArr [VArr [candidate "NEGATIVE" (1 # 10); candidate "POSITIVE" (9 # 10)]] in
  let after := VArr [VArr [candidate "POSITIVE" (9 # 10); candidate "NEGATIVE" (1 # 10)]] in
  after = json \/
  (exists items rest sorted : list value,
     json = VArr (VArr items :: rest) /\
     after = VArr (VArr sorted :: rest) /\ sorted ≡ₚ items) \/
  (exists items sorted : list value,
     json = VArr items /\ after = VArr sorted /\ sorted ≡ₚ items).
Proof.
  exact (proj1 (@normalize_only_reorders_candidates plain_host
           (VArr [VArr [candidate "NEGATIVE" (1 # 10); candidate "POSITIVE" (9 # 10)]])
           (Some (mkResult "POSITIVE" (Finite (9 # 10)) "positive"))
           (VArr [VArr [candidate "POSITIVE" (9 # 10); candidate "NEGATIVE" (1 # 10)]])
           eq_refl)).
Defined.

(** ** Selection by maximal score *)

Section Selection.
Context `{Host}.

Lemma ranked_sort_key (v : value) : ranked v = true -> sort_key v = Normal (rank v).
Proof. unfold ranked, rank. destruct (sort_key v); [reflexivity | discriminate]. Qed.

Lemma ranked_not_nan (v : value) : ranked v = true -> is_nan (rank v) = false.
Proof.
  unfold ranked, rank. destruct (sort_key v) as [k|e]; [|discriminate].
  apply negb_true_iff.
Qed.

Lemma ranked_defined (v : value) : ranked v = true -> v <> VUndefined.
Proof. intros Hr ->. discriminate Hr. Qed.

Lemma comparefn_ranked (a b : value) :
  ranked a = true -> ranked b = true ->
  comparefn a b = Normal (num_sub (rank b) (rank a)).
Proof.
  intros Ha Hb. apply ranked_sort_key in Ha, Hb. unfold sort_key in Ha, Hb.
  apply bind_Normal_inv in Ha as (sa & Hsa & Hna).
  apply bind_Normal_inv in Hb as (sb & Hsb & Hnb).
  unfold comparefn. rewrite Hsb. cbn [mbind completion_bind]. rewrite Hsa.
  cbn [mbind completion_bind]. rewrite Hnb. cbn [mbind completion_bind]. rewrite Hna.
  reflexivity.
Qed.

Lemma SortCompare_ranked (a b : value) :
  ranked a = true -> ranked b = true ->
  SortCompare comparefn a b = Normal (sort_sign (num_sub (rank b) (rank a))).
Proof.
  intros Ha Hb. pose proof (ranked_defined a Ha). pose proof (ranked_defined b Hb).
  unfold SortCompare. rewrite (comparefn_ranked a b Ha Hb).
  destruct a, b; try congruence; reflexivity.
Qed.

Lemma sort_insert_ranked (x : value) (s : list value) :
  ranked x = true -> Forall (fun v => ranked v = true) s ->
  exists s', sort_insert comparefn x s = Normal s' /\ head s' = Some (keep_first x (head s)).
Proof.
  intros Hx Hs. induction Hs as [|y rest Hy Hrest IH].
  - exists [x]. split; reflexivity.
  - cbn [sort_insert]. rewrite (SortCompare_ranked x y Hx Hy).
    cbn [mbind completion_bind].
    rewrite (sort_sign_sub (rank x) (rank y)) by (apply ranked_not_nan; assumption).
    cbn [head keep_first]. destruct (num_ltb (rank x) (rank y)).
    + destruct IH as (r & -> & _). exists (y :: r). split; reflexivity.
    + exists (x :: y :: rest). split; reflexivity.
Qed.

(** On ranked entries the sort returns, and what it puts first is the first
    entry of maximal rank. *)
Lemma Array_sort_ranked (l : list value) :
  Forall (fun v => ranked v = true) l ->
  exists s, Array_sort comparefn l = Normal s /\ head s = first_max l.
Proof.
  intros Hl. induction Hl as [|x rest Hx Hrest IH].
  - exists []. split; reflexivity.
  - destruct IH as (s & Hs & Hhead). cbn [Array_sort]. rewrite Hs.
    cbn [mbind completion_bind].
    assert (Hranked : Forall (fun v => ranked v = true) s).
    { apply Array_sort_perm in Hs. rewrite Hs. exact Hrest. }
    destruct (sort_insert_ranked x s Hx Hranked) as (s' & Hs' & Hhead').
    exists s'. split; [exact Hs'|]. rewrite Hhead', Hhead. reflexivity.
Qed.

Lemma first_max_elem (l : list value) (m : value) : first_max l = Some m -> m ∈ l.
Proof.
  revert m. induction l as [|x rest IH]; intros m Hm; [discriminate|].
  cbn [first_max] in Hm. injection Hm as <-. unfold keep_first.
  destruct (first_max rest) as [m0|]; [|left].
  destruct (num_ltb (rank x) (rank m0)); [right; apply IH; reflexivity | left].
Qed.


(** No entry ranks strictly above the first maximum. *)
Lemma first_max_upper (l : list value) (m v : value) :
  Forall (fun v => ranked v = true) l ->
  first_max l = Some m -> v ∈ l -> num_ltb (rank m) (rank v) = false.
Proof.
  intros Hl. revert m v. induction Hl as [|x rest Hx Hrest IH]; intros m v Hm Hv.
  - inversion Hv.
  - cbn [first_max] in Hm. injection Hm as <-. unfold keep_first.
    destruct (first_max rest) as [m0|] eqn:Hm0.
    + pose proof (first_max_elem rest m0 Hm0) as Hin.
      assert (Hr0 : ranked m0 = true) by (rewrite Forall_forall in Hrest; auto).
      destruct (num_ltb (rank x) (rank m0)) eqn:Hlt.
      * apply elem_of_cons in Hv as [-> | Hv]; [|apply IH; auto].
        apply num_ltb_ge. intros Hc. apply num_ltb_lt in Hlt.
        exact (num_lt_irrefl _ (num_lt_trans _ _ _ Hlt Hc)).
      * apply num_ltb_ge. apply elem_of_cons in Hv as [-> | Hv]; [apply num_lt_irrefl|].
        intros Hc. apply num_ltb_ge in Hlt. apply Hlt.
        apply (num_lt_le_trans _ (rank v)); [apply ranked_not_nan; exact Hr0 | exact Hc |].
        apply num_ltb_ge. apply IH; auto.
    + destruct rest as [|y rest']; [|discriminate].
      apply list_elem_of_singleton in Hv as ->. apply num_ltb_ge, num_lt_irrefl.
Qed.



Lemma max_rank_not_nan (l : list value) :
  Forall (fun v => ranked v = true) l -> is_nan (max_rank l) = false.
Proof.
  intros Hl. induction Hl as [|x rest Hx Hrest IH]; [reflexivity|].
  cbn [max_rank foldr]. fold (max_rank rest).
  destruct (num_ltb (max_rank rest) (rank x)); [apply ranked_not_nan; exact Hx | exact IH].
Qed.


Lemma outranked_below_max_rank (x : value) (l : list value) :
  Forall (fun v => ranked v = true) l ->
  outranked x l -> num_lt (rank x) (max_rank l).
Proof.
  intros Hl. induction Hl as [|y rest Hy Hrest IH]; intros Hout.
  - inversion Hout.
  - cbn [max_rank foldr]. fold (max_rank rest).
    destruct (num_ltb (max_rank rest) (rank y)) eqn:Hmax.
    + apply Exists_cons in Hout as [Hhd | Htl]; [apply num_ltb_lt; exact Hhd|].
      apply num_ltb_lt in Hmax. exact (num_lt_trans _ _ _ (IH Htl) Hmax).
    + apply Exists_cons in Hout as [Hhd | Htl]; [|exact (IH Htl)].
      apply num_ltb_lt in Hhd. apply num_ltb_ge in Hmax.
      apply (num_lt_le_trans _ (rank y)); [apply max_rank_not_nan; exact Hrest | exact Hhd | exact Hmax].
Qed.

Lemma normalize_ranked (json : value) (l : list value) :
  candidate_list json = Some l ->
  Forall (fun v => ranked v = true) l ->
  fst <$> normalizeHfResponse json
  = Normal (interpret (default VUndefined (first_max l))).
Proof.
  unfold candidate_list. intros Hc Hl.
  destruct (extract_candidates json) as [p|] eqn:Hp; [|discriminate].
  cbn in Hc. injection Hc as Hc.
  destruct l as [|c cs].
  - rewrite (normalize_empty json p Hp Hc). reflexivity.
  - destruct (Array_sort_ranked (c :: cs) Hl) as (s & Hs & Hhead).
    rewrite <- Hc in Hs.
    rewrite (normalize_sorted json p s Hp); [|rewrite Hc; discriminate|exact Hs].
    cbn [fmap completion_fmap fst]. rewrite <- head_lookup, Hhead. reflexivity.
Qed.


End Selection.

(** ** A second call *)

Section SecondCall.
Context `{Host}.

Lemma comparefn_swap (a b : value) (v : number) :
  comparefn a b = Normal v ->
  exists na nb, v = num_sub nb na /\ comparefn b a = Normal (num_sub na nb).
Proof.
  unfold comparefn. intros Hc.
  apply bind_Normal_inv in Hc as (sb & Hsb & Hc).
  apply bind_Normal_inv in Hc as (sa & Hsa & Hc).
  apply bind_Normal_inv in Hc as (nb & Hnb & Hc).
  apply bind_Normal_inv in Hc as (na & Hna & [= <-]).
  exists na, nb. split; [reflexivity|].
  rewrite Hsa. cbn [mbind completion_bind]. rewrite Hsb. cbn [mbind completion_bind].
  rewrite Hna. cbn [mbind completion_bind]. rewrite Hnb. reflexivity.
Qed.

(** If the sort moves [b] before [a], it leaves [b] before [a]. *)
Lemma undefined_or_not (a : value) : a = VUndefined \/ a <> VUndefined.
Proof. destruct a; (left; reflexivity) || (right; discriminate). Qed.

Lemma SortCompare_defined (a b : value) :
  a <> VUndefined -> b <> VUndefined ->
  SortCompare comparefn a b = (v ← comparefn a b; Normal (sort_sign v)).
Proof. intros Ha Hb. destruct a, b; try congruence; reflexivity. Qed.

(** If the sort moves [b] before [a], it leaves [b] before [a]. *)
Lemma SortCompare_antisym (a b : value) (v : number) :
  SortCompare comparefn a b = Normal v -> num_gtb v num_zero = true -> in_order b a.
Proof.
  unfold in_order. intros Hc Hv.
  destruct (undefined_or_not a) as [-> | Ha].
  { destruct b; injection Hc as <-; try discriminate Hv; eexists; split; reflexivity. }
  destruct (undefined_or_not b) as [-> | Hb].
  { destruct a; try congruence; injection Hc as <-; discriminate Hv. }
  rewrite SortCompare_defined in Hc |- * by assumption.
  apply bind_Normal_inv in Hc as (v0 & Hab & [= <-]).
  destruct (comparefn_swap a b v0 Hab) as (na & nb & -> & Hba). rewrite Hba.
  eexists. split; [reflexivity|]. apply sort_sign_antisym. exact Hv.
Qed.

Lemma sort_insert_sorted (x : value) (s s' : list value) :
  Sorted in_order s -> sort_insert comparefn x s = Normal s' -> Sorted in_order s'.
Proof.
  intros Hs. revert s'. induction Hs as [|y rest Hrest IH Hhd]; intros s' Hins.
  - injection Hins as <-. repeat constructor.
  - cbn [sort_insert] in Hins. apply bind_Normal_inv in Hins as (v & Hv & Hins).
    destruct (num_gtb v num_zero) eqn:Hgt.
    + apply bind_Normal_inv in Hins as (r & Hr & [= <-]).
      constructor; [exact (IH r Hr)|].
      destruct rest as [|z rest'].
      * injection Hr as <-. constructor. exact (SortCompare_antisym x y v Hv Hgt).
      * cbn [sort_insert] in Hr. apply bind_Normal_inv in Hr as (v' & _ & Hr).
        destruct (num_gtb v' num_zero).
        -- apply bind_Normal_inv in Hr as (r' & _ & [= <-]).
           constructor. inversion Hhd. assumption.
        -- injection Hr as <-. constructor. exact (SortCompare_antisym x y v Hv Hgt).
    + injection Hins as <-. constructor; [constructor; assumption|].
      constructor. exists v. split; assumption.
Qed.

Lemma Array_sort_sorted (items sorted : list value) :
  Array_sort comparefn items = Normal sorted -> Sorted in_order sorted.
Proof.
  revert sorted. induction items as [|x rest IH]; intros sorted Hs.
  - injection Hs as <-. constructor.
  - cbn [Array_sort] in Hs. apply bind_Normal_inv in Hs as (s & Hrest & Hs).
    exact (sort_insert_sorted x s sorted (IH s Hrest) Hs).
Qed.

(** The sort changes nothing in a list that is in order already. *)
Lemma Array_sort_fixed (l : list value) :
  Sorted in_order l -> Array_sort comparefn l = Normal l.
Proof.
  intros Hl. induction Hl as [|x rest Hrest IH Hhd]; [reflexivity|].
  cbn [Array_sort]. rewrite IH. cbn [mbind completion_bind].
  destruct Hhd as [|y rest' (v & Hv & Hle)]; [reflexivity|].
  cbn [sort_insert]. rewrite Hv. cbn [mbind completion_bind]. rewrite Hle. reflexivity.
Qed.

(** X3. Where the argument as the normalizer leaves it still selects the same
    candidate list, as it always does for the nested shape, a second call on
    it returns what the first returned and changes nothing more. *)
Theorem second_call_returns_the_same
    (json : value) (r : option result) (after : value) :
  normalizeHfResponse json = Normal (r, after) ->
  extract_candidates after = extract_candidates json ->
  normalizeHfResponse after = Normal (r, after).
Proof.
  intros Hn Hsame.
  destruct (extract_candidates json) as [p|] eqn:Hp.
  2:{ rewrite (normalize_no_candidates json Hp) in Hn. injection Hn as <- <-.
      exact (normalize_no_candidates json Hp). }
  destruct (elements (deref json p)) as [|c cs] eqn:He.
  { rewrite (normalize_empty json p Hp He) in Hn. injection Hn as <- <-.
    exact (normalize_empty json p Hp He). }
  assert (Hne : elements (deref json p) <> []) by (rewrite He; discriminate).
  destruct (Array_sort comparefn (elements (deref json p))) as [sorted|e] eqn:Hs.
  2:{ rewrite (normalize_sort_throws json p e Hp Hne Hs) in Hn. discriminate. }
  rewrite (normalize_sorted json p sorted Hp Hne Hs) in Hn. injection Hn as <- <-.
  pose proof (Array_sort_nonempty comparefn _ _ Hs Hne) as Hsne.
  pose proof (Array_sort_fixed sorted (Array_sort_sorted _ _ Hs)) as Hfix.
  destruct (extract_candidates_array json p Hp) as [items ->].
  assert (Hel : elements (deref (assign (VArr items) p (VArr sorted)) p) = sorted).
  { destruct p; [reflexivity|].
    destruct items as [|first rest]; [discriminate Hp | reflexivity]. }
  assert (Hassign : assign (assign (VArr items) p (VArr sorted)) p (VArr sorted)
                    = assign (VArr items) p (VArr sorted)).
  { destruct p; [reflexivity|]. destruct items; reflexivity. }
  rewrite <- Hel in Hsne, Hfix at 1.
  rewrite (normalize_sorted _ p sorted Hsame Hsne Hfix), Hassign. reflexivity.
Qed.

(** The condition of X3 is needed: on the flat shape a second call can
    differ. The flat list
    [[{score: -1}, [{label: 'POSITIVE', score: 0.9}]]] has no result; the
    sort moves the inner list, which ranks as 0, to the front, and the
    normalizer then reads the argument as nested and finds a positive
    candidate in it. *)
Theorem second_call_differs_on_flat_list :
  let json := VArr [VObj [("score", VNum (Finite (-1)))];
                    VArr [candidate "POSITIVE" (9 # 10)]] in
  let after := VArr [VArr [candidate "POSITIVE" (9 # 10)];
                     VObj [("score", VNum (Finite (-1)))]] in
  normalizeHfResponse json = Normal (None, after) /\
  fst <$> normalizeHfResponse after
  = Normal (Some (mkResult "POSITIVE" (Finite (9 # 10)) "positive")).
Proof. split; reflexivity. Qed.

End SecondCall.

(** ** Ingestion and analysis *)

(** Unfolds the sequencing of statements and the page helpers. *)
Ltac step_actions :=
  cbv [mbind action_bind mret action_ret modify gets lift try_catch
       setStatus classList_remove classList_add setText setAttribute removeAttribute
       getAttribute focus clearError showError updateCountBadge resolve
       with_page with_STATE with_requests with_loading
       STATE page requests loading reviews loaded fst snd].

Section ApplicationClaims.
Context `{Host}.

Lemma row_text_field (r : value) :
  row_text r = Normal (from_option trim "" (text_field r)).
Proof.
  destruct r as [| |b|n|s|items|props]; try reflexivity.
  - destruct b; reflexivity.
  - unfold row_text. destruct (ToBoolean (VNum n)); reflexivity.
  - unfold row_text. destruct (ToBoolean (VStr s)); reflexivity.
  - unfold row_text, text_field. cbn [ToBoolean get].
    destruct (own_property "text" props) as [[| |b|n|s|items|props']|]; reflexivity.
Qed.

Lemma Array_map_row_text (rows : list value) :
  Array_map row_text (VArr rows)
  = Normal (map (fun r => from_option trim "" (text_field r)) rows).
Proof.
  cbn [Array_map]. induction rows as [|r rows IH]; [reflexivity|].
  change (mapM row_text (r :: rows))
    with (y ← row_text r; k ← mapM row_text rows; mret (y :: k)).
  rewrite row_text_field, IH. reflexivity.
Qed.

Lemma filter_nonempty_survivors (rows : list value) :
  filter (fun t => (0 <? String.length t)%nat = true)
    (map (fun r => from_option trim "" (text_field r)) rows)
  = survivors rows.
Proof.
  unfold survivors. induction rows as [|r rows IH]; [reflexivity|].
  cbn [map omap list_omap]. unfold kept at 1.
  destruct (text_field r) as [s|]; cbn [from_option].
  - destruct (trim s) as [|c t] eqn:Ht.
    + rewrite filter_cons_False by (cbn; discriminate). exact IH.
    + rewrite filter_cons_True by reflexivity. cbn. f_equal. exact IH.
  - rewrite filter_cons_False by (cbn; discriminate). exact IH.
Qed.

Lemma kept_spec (r : value) (t : string) :
  kept r = Some t <-> exists s, text_field r = Some s /\ trim s = t /\ t <> "".
Proof.
  unfold kept. split.
  - destruct (text_field r) as [s|]; [|discriminate].
    destruct (String.eqb_spec (trim s) "") as [He|Hne]; [discriminate|].
    intros [= <-]. eauto.
  - intros (s & -> & <- & Hne).
    destruct (String.eqb_spec (trim s) "") as [He|_]; [contradiction | reflexivity].
Qed.

(** C7. Ingestion keeps the [text] field of a row exactly when it is a
    string with something left after trimming; the trimmed texts that
    survive make up the reviews in the order of the rows, and the store is
    marked loaded exactly when there is at least one. *)
Theorem ingestion_keeps_trimmed_texts (results : value) (rows : list value) (w : world) :
  get_opt results "data" = VArr rows ->
  let w' := fst (loadTSV (Complete results) w) in
  reviews (STATE w') = survivors rows /\
  (loaded (STATE w') = true <-> survivors rows <> []) /\
  (forall t : string,
     t ∈ reviews (STATE w') <->
     exists (r : value) (s : string),
       r ∈ rows /\ text_field r = Some s /\ trim s = t /\ t <> "").
Proof.
  intros Hdata w'.
  assert (Hstate : STATE w' = mkStore (survivors rows) (0 <? length (survivors rows))%nat).
  { subst w'. destruct w as [st pg rq pr]. unfold loadTSV, on_complete. step_actions.
    rewrite Hdata. cbn [ToBoolean]. rewrite Array_map_row_text, filter_nonempty_survivors.
    destruct (0 <? length (survivors rows))%nat; reflexivity. }
  rewrite Hstate. cbn [reviews loaded]. split; [reflexivity|]. split.
  - destruct (survivors rows); cbn; split; intros; congruence.
  - intros t. unfold survivors. rewrite list_elem_of_omap. split.
    + intros (r & Hr & Hk). apply kept_spec in Hk as (s & Hs & Ht & Hne). eauto 6.
    + intros (r & s & Hr & Hs & Ht & Hne). exists r. split; [exact Hr|].
      apply kept_spec. eauto.
Qed.

(** C8. While the store is not loaded or holds no review, [analyzeRandom]
    shows the message that asks for a reload and returns: no request is
    issued, the store is as it was, and the busy marker is not touched. *)
Theorem analyze_requires_loaded_reviews (env : environment) (w : world) :
  loaded (STATE w) = false \/ reviews (STATE w) = [] ->
  let w' := fst (analyzeRandom env w) in
  snd (analyzeRandom env w) = Normal tt /\
  requests w' = requests w /\
  STATE w' = STATE w /\
  page w' !! ("errorBox", "textContent") = Some reload_message /\
  page w' !! ("errorBox", "style.display") = Some "block" /\
  page w' !! ("analyzeBtn", "aria-busy") = page w !! ("analyzeBtn", "aria-busy").
Proof.
  intros Hpre w'. subst w'. destruct w as [[rv ld] pg rq pr].
  cbn [STATE loaded reviews] in Hpre.
  assert (Hguard : negb ld || (length rv =? 0)%nat = true).
  { destruct Hpre as [-> | ->]; [reflexivity | apply orb_true_r]. }
  unfold analyzeRandom. step_actions. rewrite Hguard.
  repeat split; simplify_map_eq; reflexivity.
Qed.

(** The report of a load whose download completes, by what becomes of the
    rows. *)
Lemma complete_report (results : value) :
  match Array_map row_text
          (if ToBoolean (get_opt results "data") then get_opt results "data" else VArr [])
  with
  | Throw e =>
      failure_report (Complete results)
      = Some ("Parse error", "Failed to parse TSV: " +:+ error_detail e)
  | Normal mapped =>
      failure_report (Complete results)
      = if (0 <? length (filter (fun t => (0 <? String.length t)%nat = true) mapped))%nat
        then None
        else Some ("No reviews found in TSV",
                   "No valid " +:+ dquote +:+ "text" +:+ dquote +:+
                   " column values found in reviews_test.tsv.")
  end.
Proof.
  unfold failure_report, rows_of. cbv zeta.
  destruct (get_opt results "data") as [| |b|n|t|rows|props];
    try reflexivity.
  - destruct b; reflexivity.
  - destruct (ToBoolean (VNum n)); reflexivity.
  - destruct (ToBoolean (VStr t)); reflexivity.
  - cbn [ToBoolean isArray negb andb elements].
    rewrite Array_map_row_text, filter_nonempty_survivors. reflexivity.
Qed.

(** C10. The promise [loadTSV] returns is fulfilled whatever Papa Parse
    reports: rows with reviews, rows without any, results whose rows cannot
    be processed, or a failed download; [loadTSV] itself does not throw.
    Every failure is reported on the page: the store is left empty and not
    loaded, the status chip is in the error mode with the text of the
    failure, and the error box is shown with its message.  A load that
    leaves reviews reports none: the chip is in the ready mode and the error
    box is hidden and empty. *)
Theorem loadTSV_always_resolves (ev : papa_event) (w : world) :
  let w' := fst (loadTSV ev w) in
  snd (loadTSV ev w) = Normal tt /\ loading w' = Fulfilled /\
  match failure_report ev with
  | Some (status, message) =>
      STATE w' = mkStore [] false /\
      is_Some (page w' !! ("loadStatus", "class:error")) /\
      page w' !! ("loadStatus", "class:ready") = None /\
      page w' !! ("loadStatus.label", "textContent") = Some status /\
      page w' !! ("errorBox", "textContent") = Some message /\
      page w' !! ("errorBox", "style.display") = Some "block"
  | None =>
      loaded (STATE w') = true /\
      is_Some (page w' !! ("loadStatus", "class:ready")) /\
      page w' !! ("loadStatus", "class:error") = None /\
      page w' !! ("loadStatus.label", "textContent") = Some "TSV loaded" /\
      page w' !! ("errorBox", "textContent") = Some "" /\
      page w' !! ("errorBox", "style.display") = Some "none"
  end.
Proof.
  destruct w as [st pg rq pr]. destruct ev as [results|err]; cbv zeta.
  - pose proof (complete_report results) as Hrep.
    unfold loadTSV, on_complete. step_actions.
    destruct (Array_map row_text _) as [mapped|e];
      [destruct (0 <? length (filter _ mapped))%nat eqn:Hlen|];
      rewrite Hrep; step_actions;
      repeat split; simplify_map_eq; try reflexivity; try (eexists; reflexivity).
    f_equal. apply nil_length_inv. apply Nat.ltb_ge in Hlen. lia.
  - unfold loadTSV, on_error, failure_report. step_actions.
    repeat split; simplify_map_eq; try reflexivity; try (eexists; reflexivity).
Qed.

Lemma renderSentiment_page_only (r : option result) (w : world) :
  exists pg, renderSentiment r w = (mkWorld (STATE w) pg (requests w) (loading w), Normal tt) /\
             pg !! ("analyzeBtn", "aria-busy") = page w !! ("analyzeBtn", "aria-busy").
Proof.
  destruct w as [st pg rq pr]. unfold renderSentiment. step_actions.
  destruct r as [res|].
  - destruct (String.eqb (verdict res) "positive"); [|destruct (String.eqb (verdict res) "negative")];
      eexists; (split; [reflexivity|]); simplify_map_eq; reflexivity.
  - eexists. split; [reflexivity|]. simplify_map_eq. reflexivity.
Qed.

(** Replaces a call of [renderSentiment] by the world it leaves. *)
Ltac render_step :=
  match goal with
  | |- context [renderSentiment ?r ?w0] =>
      let pg := fresh "pg" in
      let Hrender := fresh "Hrender" in
      let Hbusy := fresh "Hbusy" in
      destruct (renderSentiment_page_only r w0) as (pg & Hrender & Hbusy);
      rewrite Hrender; cbn [page] in Hbusy
  end.

(** X5. On every path but one the marker is cleared: whenever the normalizer
    returns on the body of a successful response, [analyzeRandom] completes
    with [aria-busy] at false. *)
Lemma analyze_clears_busy (env : environment) (w : world) :
  loaded (STATE w) = true -> reviews (STATE w) <> [] ->
  (forall resp data e,
     fetched env = Normal resp -> ok resp = true -> json resp = Normal data ->
     normalizeHfResponse data <> Throw e) ->
  snd (analyzeRandom env w) = Normal tt /\
  page (fst (analyzeRandom env w)) !! ("analyzeBtn", "aria-busy") = Some "false".
Proof.
  intros Hloaded Hrev Hreturns. destruct w as [[rv ld] pg rq pr].
  cbn [STATE loaded reviews] in Hloaded, Hrev. subst ld.
  assert (Hguard : negb true || (length rv =? 0)%nat = false).
  { destruct rv; [congruence | reflexivity]. }
  unfold analyzeRandom, fetch. step_actions. rewrite Hguard. render_step. step_actions.
  destruct (fetched env) as [resp|e] eqn:Hfetch.
  2:{ step_actions. split; [reflexivity|]. simplify_map_eq. reflexivity. }
  destruct (ok resp) eqn:Hok; cbn [negb].
  - destruct (json resp) as [data|e] eqn:Hjson.
    2:{ step_actions. split; [reflexivity|]. simplify_map_eq. reflexivity. }
    destruct (normalizeHfResponse data) as [[r after]|e] eqn:Hnorm.
    2:{ destruct (Hreturns resp data e eq_refl Hok Hjson Hnorm). }
    cbn [fmap completion_fmap]. step_actions. render_step. step_actions.
    split; [reflexivity|]. simplify_map_eq. reflexivity.
  - step_actions.
    destruct (status resp =? 401)%nat; [|destruct (status resp =? 429)%nat;
      [|destruct (status resp =? 503)%nat]];
      step_actions; (split; [reflexivity|]); simplify_map_eq; reflexivity.
Qed.

(** The path that is left: when the normalizer throws on the body of a
    successful response, the exception leaves [analyzeRandom] with
    [aria-busy] still at true. *)
Lemma analyze_leaves_busy (env : environment) (w : world)
    (resp : response) (data : value) (e : error) :
  loaded (STATE w) = true -> reviews (STATE w) <> [] ->
  fetched env = Normal resp -> ok resp = true -> json resp = Normal data ->
  normalizeHfResponse data = Throw e ->
  snd (analyzeRandom env w) = Throw e /\
  page (fst (analyzeRandom env w)) !! ("analyzeBtn", "aria-busy") = Some "true".
Proof.
  intros Hloaded Hrev Hfetch Hok Hjson Hnorm. destruct w as [[rv ld] pg rq pr].
  cbn [STATE loaded reviews] in Hloaded, Hrev. subst ld.
  assert (Hguard : negb true || (length rv =? 0)%nat = false).
  { destruct rv; [congruence | reflexivity]. }
  unfold analyzeRandom, fetch. step_actions. rewrite Hguard. render_step. step_actions.
  rewrite Hfetch, Hok. cbn [negb]. rewrite Hjson, Hnorm.
  cbn [fmap completion_fmap]. split; [reflexivity|].
  cbn [fst page]. rewrite Hbusy. simplify_map_eq. reflexivity.
Qed.

(** C9, the failing run. The store holds one review and the classifier
    answers 200 with the body [[[null, {label: 'POSITIVE', score: 0.9}]]]:
    the normalizer throws, [analyzeRandom] ends with that exception, and the
    busy marker it set is still set. *)
Theorem analyze_leaves_busy_on_null_candidate :
  let w := mkWorld (mkStore ["good"] true) ∅ [] Pending in
  let body := VArr [VArr [VNull; candidate "POSITIVE" (9 # 10)]] in
  let env := mkEnvironment 0 (Normal (mkResponse 200 (Normal body))) in
  snd (analyzeRandom env w)
  = Throw (TypeError "Cannot read properties of null (reading 'score')") /\
  page (fst (analyzeRandom env w)) !! ("analyzeBtn", "aria-busy") = Some "true".
Proof.
  intros w body env.
  apply (analyze_leaves_busy env w (mkResponse 200 (Normal body)) body); try reflexivity.
  discriminate.
Qed.

(** X6. A failed download leaves the store empty and not loaded, whatever it
    held, reports the failure, and shows the message of the error. *)
Theorem failed_load_resets_store (err : error) (w : world) :
  let w' := fst (loadTSV (Failed err) w) in
  STATE w' = mkStore [] false /\
  page w' !! ("loadStatus.label", "textContent") = Some "Load failed" /\
  page w' !! ("loadStatus", "class:error") = Some "" /\
  page w' !! ("errorBox", "textContent") = Some ("Failed to load TSV: " +:+ error_detail err).
Proof.
  destruct w as [st pg rq pr]. unfold loadTSV, on_error. step_actions.
  repeat split; simplify_map_eq; reflexivity.
Qed.

(** X7. Results whose rows cannot be mapped end in the [catch] branch: the
    status reads Parse error, the store stays empty, and the promise is
    fulfilled all the same. *)
Theorem unmappable_rows_are_caught (results : value) (w : world) :
  ToBoolean (get_opt results "data") = true ->
  isArray (get_opt results "data") = false ->
  let w' := fst (loadTSV (Complete results) w) in
  STATE w' = mkStore [] false /\
  page w' !! ("loadStatus.label", "textContent") = Some "Parse error" /\
  page w' !! ("errorBox", "textContent")
  = Some "Failed to parse TSV: rows.map is not a function" /\
  loading w' = Fulfilled.
Proof.
  intros Htruthy Harr. destruct w as [st pg rq pr].
  unfold loadTSV, on_complete. step_actions. rewrite Htruthy.
  destruct (get_opt results "data"); try discriminate Harr;
    cbn [Array_map]; repeat split; simplify_map_eq; reflexivity.
Qed.

End ApplicationClaims.



(** C7, at the rows
    [[{text: ' good '}, {text: ''}, {text: 42}, {text: 'bad movie'}]]. *)
Lemma ingestion_keeps_trimmed_texts_witness :
  let rows := [VObj [("text", VStr " good ")]; VObj [("text", VStr "")];
               VObj [("text", VNum (Finite 42))]; VObj [("text", VStr "bad movie")]] in
  let w' := fst (loadTSV (Complete (VObj [("data", VArr rows)]))
                   (mkWorld (mkStore [] false) ∅ [] Pending)) in
  reviews (STATE w') = ["good"; "bad movie"] /\ loaded (STATE w') = true.
Proof.
  intros rows w'.
  destruct (ingestion_keeps_trimmed_texts (VObj [("data", VArr rows)]) rows
              (mkWorld (mkStore [] false) ∅ [] Pending) eq_refl) as (Hreviews & Hloaded & _).
  split; [exact Hreviews|]. apply Hloaded. discriminate.
Defined.

(** Trimming takes the white space of more than one byte too: of the rows
    [[{text: '\u00A0good\u00A0'}, {text: '\u00A0'}]] the one review
    [good] is kept. *)
Lemma ingestion_trims_no_break_space :
  let nbsp := String (ascii_of_nat 194) (String (ascii_of_nat 160) "") in
  let rows := [VObj [("text", VStr (nbsp +:+ "good" +:+ nbsp))];
               VObj [("text", VStr nbsp)]] in
  reviews (STATE (fst (loadTSV (Complete (VObj [("data", VArr rows)]))
                         (mkWorld (mkStore [] false) ∅ [] Pending))))
  = ["good"].
Proof. reflexivity. Qed.

(** C8, in the world before any load. *)
Lemma analyze_requires_loaded_reviews_witness :
  let w := mkWorld (mkStore [] false) ∅ [] Pending in
  let env := mkEnvironment 0 (Normal (mkResponse 200 (Normal (VArr [])))) in
  requests (fst (@analyzeRandom plain_host env w)) = [] /\
  page (fst (@analyzeRandom plain_host env w)) !! ("errorBox", "textContent")
  = Some reload_message.
Proof.
  intros w env.
  destruct (@analyze_requires_loaded_reviews plain_host env w (or_introl eq_refl))
    as (_ & Hreq & _ & Hmsg & _).
  split; [exact Hreq | exact Hmsg].
Defined.

(** X2, at the list [[null, null]]. *)
Lemma null_entry_among_others_throws_witness :
  exists e : error, @normalizeHfResponse plain_host (VArr [VArr [VNull; VNull]]) = Throw e.
Proof.
  apply (@null_entry_among_others_throws plain_host [VNull; VNull] []).
  - cbn. lia.
  - left.
  - intros Hin. apply elem_of_cons in Hin as [Hin | Hin]; [discriminate Hin|].
    apply list_elem_of_singleton in Hin. discriminate Hin.
Defined.

(** X5, on a successful analysis. *)
Lemma analyze_clears_busy_witness :
  let w := mkWorld (mkStore ["good"] true) ∅ [] Pending in
  let body := VArr [VArr [candidate "POSITIVE" (9 # 10)]] in
  let env := mkEnvironment 0 (Normal (mkResponse 200 (Normal body))) in
  snd (@analyzeRandom plain_host env w) = Normal tt /\
  page (fst (@analyzeRandom plain_host env w)) !! ("analyzeBtn", "aria-busy") = Some "false".
Proof.
  intros w body env.
  apply (@analyze_clears_busy plain_host env w); [reflexivity | discriminate |].
  intros resp data e [= <-] _ [= <-]. discriminate.
Defined.

(** X7, at results whose data is a string. *)
Lemma unmappable_rows_are_caught_witness :
  let w' := fst (loadTSV (Complete (VObj [("data", VStr "text")]))
                   (mkWorld (mkStore ["good"] true) ∅ [] Pending)) in
  STATE w' = mkStore [] false /\ loading w' = Fulfilled.
Proof.
  intros w'.
  destruct (unmappable_rows_are_caught (VObj [("data", VStr "text")])
              (mkWorld (mkStore ["good"] true) ∅ [] Pending) eq_refl eq_refl)
    as (Hstate & _ & _ & Hpromise).
  split; [exact Hstate | exact Hpromise].
Defined.

(** X3, on the nested list the first call has sorted. *)
Lemma second_call_returns_the_same_witness :
  let after := VArr [VArr [candidate "POSITIVE" (9 # 10); candidate "NEGATIVE" (1 # 10)]] in
  @normalizeHfResponse plain_host after
  = Normal (Some (mkResult "POSITIVE" (Finite (9 # 10)) "positive"), after).
Proof.
  intros after.
  apply (@second_call_returns_the_same plain_host
           (VArr [VArr [candidate "NEGATIVE" (1 # 10); candidate "POSITIVE" (9 # 10)]]));
    reflexivity.
Defined.

(** * Further properties *)

(** ** What the normalizer returns *)

Section Results.
Context `{Host}.

(** X4. Whatever the input, a result the normalizer returns is made from one
    entry of the candidate list: its label is the label of that entry in
    upper case (for a label of ASCII characters, the label with a to z
    turned into A to Z), its score the number the entry carries, or 0.  The
    verdict is positive exactly when the label is POSITIVE and the score
    above 0.5, negative exactly when the label is NEGATIVE and the score
    above 0.5, and neutral exactly in the cases that remain. *)
Theorem result_comes_from_a_candidate (json : value) (r : result) (after : value) :
  normalizeHfResponse json = Normal (Some r, after) ->
  (exists (l : list value) (t : value) (s : string),
     candidate_list json = Some l /\ t ∈ l /\ label_of t = Some s /\
     label r = toUpperCase s /\
     (is_ascii_text s = true -> label r = upper_ascii_text s) /\
     score r = score_of t) /\
  (verdict r = "positive" <-> label r = "POSITIVE" /\ num_lt num_half (score r)) /\
  (verdict r = "negative" <-> label r = "NEGATIVE" /\ num_lt num_half (score r)) /\
  (verdict r = "neutral" <->
   ~ ((label r = "POSITIVE" \/ label r = "NEGATIVE") /\ num_lt num_half (score r))).
Proof.
  intros Hn.
  destruct (normalize_result json r after Hn) as (l & t & Hl & Hin & Hr).
  apply interpret_verdict in Hr as ((s & Hs & Hlabel & Hscore) & Hpos & Hneg & Hneu).
  split; [|auto].
  exists l, t, s. repeat (split; [solve [auto]|]). split; [|exact Hscore].
  intros Hascii. rewrite Hlabel. unfold toUpperCase. rewrite Hascii. reflexivity.
Qed.

End Results.

(** X4, at the nested list of one candidate labelled in lower case. *)
Lemma result_comes_from_a_candidate_witness :
  let json := VArr [VArr [candidate "positive" (9 # 10)]] in
  exists (r : result) (after : value),
    @normalizeHfResponse plain_host json = Normal (Some r, after) /\
    label r = "POSITIVE" /\
    (verdict r = "positive" <-> label r = "POSITIVE" /\ num_lt num_half (score r)).
Proof.
  intros json.
  exists (mkResult "POSITIVE" (Finite (9 # 10)) "positive"), json.
  split; [reflexivity|]. split; [reflexivity|].
  exact (proj1 (proj2 (@result_comes_from_a_candidate plain_host json
           (mkResult "POSITIVE" (Finite (9 # 10)) "positive") json eq_refl))).
Defined.

(** ** Which candidate is selected, and how the list is left *)

Section Order.
Context `{Host}.

Lemma first_max_split (l : list value) (m : value) :
  Forall (fun v => ranked v = true) l -> first_max l = Some m ->
  exists before after : list value,
    l = before ++ m :: after /\
    Forall (fun v => num_lt (rank v) (rank m)) before /\
    Forall (fun v => ~ num_lt (rank m) (rank v)) after.
Proof.
  intros Hl. revert m. induction Hl as [|x rest Hx Hrest IH]; intros m Hm; [discriminate|].
  cbn [first_max] in Hm. injection Hm as <-. unfold keep_first.
  destruct (first_max rest) as [m0|] eqn:Hm0.
  - destruct (num_ltb (rank x) (rank m0)) eqn:Hlt.
    + destruct (IH m0 eq_refl) as (before & after & -> & Hb & Ha).
      exists (x :: before), after. split; [reflexivity|]. split; [|exact Ha].
      constructor; [apply num_ltb_lt; exact Hlt | exact Hb].
    + exists [], rest. split; [reflexivity|]. split; [constructor|].
      apply Forall_forall. intros v Hv Hc. apply num_ltb_ge in Hlt. apply Hlt.
      apply (num_lt_le_trans _ (rank v)); [| exact Hc |].
      * apply ranked_not_nan. rewrite Forall_forall in Hrest. apply Hrest.
        exact (first_max_elem rest m0 Hm0).
      * apply num_ltb_ge. exact (first_max_upper rest m0 v Hrest Hm0 Hv).
  - destruct rest; [|discriminate]. exists [], []. repeat split; constructor.
Qed.

(** X8. Among candidates that all carry a score the comparator can rank,
    the normalizer decides on the first entry of maximal score: every entry
    before it ranks strictly lower, no entry after it ranks higher, and the
    result is what the decision rule makes of that entry alone. *)
Theorem selects_first_of_maximal_score (json : value) (l : list value) :
  candidate_list json = Some l -> l <> [] ->
  Forall (fun v => ranked v = true) l ->
  exists (before after : list value) (m : value),
    l = before ++ m :: after /\
    Forall (fun v => num_lt (rank v) (rank m)) before /\
    Forall (fun v => ~ num_lt (rank m) (rank v)) after /\
    fst <$> normalizeHfResponse json = Normal (interpret m).
Proof.
  intros Hc Hne Hl.
  destruct (first_max l) as [m|] eqn:Hm; [|destruct l; [congruence | discriminate]].
  destruct (first_max_split l m Hl Hm) as (before & after & Hsplit & Hb & Ha).
  exists before, after, m. repeat split; try assumption.
  rewrite (normalize_ranked json l Hc Hl), Hm. reflexivity.
Qed.

Lemma not_below_trans (a b c : value) : not_below a b -> not_below b c -> not_below a c.
Proof.
  intros (Ha & Hb & Hab) (_ & Hc & Hbc). repeat split; try assumption.
  apply num_ltb_ge. intros Hac. apply num_ltb_ge in Hab, Hbc. apply Hab.
  exact (num_lt_le_trans _ _ _ (ranked_not_nan b Hb) Hac Hbc).
Qed.

Lemma sorted_not_below (s : list value) :
  Forall (fun v => ranked v = true) s -> Sorted in_order s -> Sorted not_below s.
Proof.
  intros Hr Hs. induction Hs as [|x rest Hrest IH Hhd]; [constructor|].
  apply Forall_cons in Hr as [Hx Hr]. constructor; [exact (IH Hr)|].
  destruct Hhd as [|y rest' (v & Hv & Hle)]; constructor.
  apply Forall_cons in Hr as [Hy _]. repeat split; try assumption.
  rewrite (SortCompare_ranked x y Hx Hy) in Hv. injection Hv as <-.
  rewrite sort_sign_sub in Hle by (apply ranked_not_nan; assumption). exact Hle.
Qed.

(** X9. The call leaves the candidate list sorted: when every candidate
    carries a score the comparator can rank and the normalizer returns, the
    argument holds the same candidates in an order in which no entry ranks
    below any entry that comes after it. *)
Theorem leaves_candidates_in_descending_order
    (json : value) (l : list value) (r : option result) (after : value) :
  candidate_list json = Some l ->
  Forall (fun v => ranked v = true) l ->
  normalizeHfResponse json = Normal (r, after) ->
  exists (p : place) (sorted : list value),
    extract_candidates json = Some p /\
    after = assign json p (VArr sorted) /\
    sorted ≡ₚ l /\
    StronglySorted (fun a b => ~ num_lt (rank a) (rank b)) sorted.
Proof.
  unfold candidate_list. intros Hc Hl Hn.
  destruct (extract_candidates json) as [p|] eqn:Hp; [|discriminate].
  cbn in Hc. injection Hc as Hc. exists p.
  destruct (extract_candidates_array json p Hp) as [items ->].
  destruct l as [|c cs].
  - rewrite (normalize_empty _ p Hp Hc) in Hn. injection Hn as _ <-.
    exists []. split; [reflexivity|]. split; [|split; [reflexivity | constructor]].
    destruct p; cbn in Hc |- *; [congruence|].
    destruct items as [|[| |b|n|s0|inner|props] rest]; try discriminate Hp.
    cbn in Hc. subst inner. reflexivity.
  - assert (Hne : elements (deref (VArr items) p) <> []) by (rewrite Hc; discriminate).
    destruct (Array_sort comparefn (elements (deref (VArr items) p))) as [sorted|e] eqn:Hs.
    2:{ rewrite (normalize_sort_throws _ p e Hp Hne Hs) in Hn. discriminate. }
    rewrite (normalize_sorted _ p sorted Hp Hne Hs) in Hn. injection Hn as _ <-.
    exists sorted. split; [reflexivity|]. split; [reflexivity|].
    pose proof (Array_sort_perm _ _ _ Hs) as Hperm. rewrite Hc in Hperm.
    split; [exact Hperm|].
    assert (Hr : Forall (fun v => ranked v = true) sorted) by (rewrite Hperm; exact Hl).
    pose proof (sorted_not_below sorted Hr (Array_sort_sorted _ _ Hs)) as Hsorted.
    apply Sorted_StronglySorted in Hsorted; [|intros a b c'; apply not_below_trans].
    clear -Hsorted. induction Hsorted as [|x rest Hrest IH Hall]; constructor; [exact IH|].
    eapply Forall_impl; [exact Hall|]. intros y (_ & _ & Hxy). apply num_ltb_ge. exact Hxy.
Qed.

End Order.

(** X8, at the list [[{NEGATIVE, 0.9}, {POSITIVE, 0.9}, {POSITIVE, 0.1}]]:
    of the two entries at 0.9 the first is decided on. *)
Lemma selects_first_of_maximal_score_witness :
  exists (before after : list value) (m : value),
    [candidate "NEGATIVE" (9 # 10); candidate "POSITIVE" (9 # 10); candidate "POSITIVE" (1 # 10)]
    = before ++ m :: after /\
    Forall (fun v => num_lt (@rank plain_host v) (@rank plain_host m)) before /\
    Forall (fun v => ~ num_lt (@rank plain_host m) (@rank plain_host v)) after /\
    fst <$> @normalizeHfResponse plain_host
              (VArr [VArr [candidate "NEGATIVE" (9 # 10); candidate "POSITIVE" (9 # 10);
                           candidate "POSITIVE" (1 # 10)]])
    = Normal (@interpret plain_host m).
Proof.
  apply (@selects_first_of_maximal_score plain_host).
  - reflexivity.
  - discriminate.
  - repeat constructor.
Defined.

(** X9, at the list [[{NEGATIVE, 0.1}, {POSITIVE, 0.9}]]. *)
Lemma leaves_candidates_in_descending_order_witness :
  exists (p : place) (sorted : list value),
    extract_candidates (VArr [VArr [candidate "NEGATIVE" (1 # 10); candidate "POSITIVE" (9 # 10)]])
    = Some p /\
    VArr [VArr [candidate "POSITIVE" (9 # 10); candidate "NEGATIVE" (1 # 10)]]
    = assign (VArr [VArr [candidate "NEGATIVE" (1 # 10); candidate "POSITIVE" (9 # 10)]]) p
        (VArr sorted) /\
    sorted ≡ₚ [candidate "NEGATIVE" (1 # 10); candidate "POSITIVE" (9 # 10)] /\
    StronglySorted (fun a b => ~ num_lt (@rank plain_host a) (@rank plain_host b)) sorted.
Proof.
  apply (@leaves_candidates_in_descending_order plain_host
           (VArr [VArr [candidate "NEGATIVE" (1 # 10); candidate "POSITIVE" (9 # 10)]])
           [candidate "NEGATIVE" (1 # 10); candidate "POSITIVE" (9 # 10)]
           (Some (mkResult "POSITIVE" (Finite (9 # 10)) "positive"))).
  - reflexivity.
  - repeat constructor.
  - reflexivity.
Defined.

(** ** What a load leaves *)

Lemma leading_space_shorter (s rest : string) :
  leading_space s = Some rest -> (String.length rest < String.length s)%nat.
Proof.
  destruct s as [|c1 [|c2 [|c3 r3]]]; cbn [leading_space String.length];
    repeat match goal with |- context [if ?b then _ else _] => destruct b end;
    intros [= <-]; cbn [String.length]; lia.
Qed.

Lemma append_String (c : ascii) (s u : string) : String c s +:+ u = String c (s +:+ u).
Proof. reflexivity. Qed.

Lemma leading_space_app (s rest u : string) :
  leading_space s = Some rest -> leading_space (s +:+ u) = Some (rest +:+ u).
Proof.
  destruct s as [|c1 r1]; [discriminate|]. rewrite append_String. cbn [leading_space].
  destruct (is_space c1) eqn:H1; [intros [= <-]; reflexivity|].
  destruct r1 as [|c2 r2]; [discriminate|]. rewrite append_String.
  destruct (is_space2 c1 c2) eqn:H2; [intros [= <-]; reflexivity|].
  destruct r2 as [|c3 r3]; [discriminate|]. rewrite append_String.
  destruct (is_space3 c1 c2 c3) eqn:H3; [intros [= <-]; reflexivity | discriminate].
Qed.

Lemma strip_start_fixed (n : nat) (s : string) :
  leading_space s = None -> strip_start n s = s.
Proof. intros Hs. destruct n; cbn [strip_start]; [|rewrite Hs]; reflexivity. Qed.

Lemma strip_start_done (n : nat) (s : string) :
  (String.length s <= n)%nat -> leading_space (strip_start n s) = None.
Proof.
  revert s. induction n as [|n IH]; intros s Hlen.
  - destruct s; [reflexivity | cbn in Hlen; lia].
  - cbn [strip_start]. destruct (leading_space s) as [rest|] eqn:Hs; [|exact Hs].
    apply IH. apply leading_space_shorter in Hs. lia.
Qed.

Lemma trim_end_prefix (s : string) : exists u, s = trim_end s +:+ u.
Proof.
  induction s as [|c s [u IH]]; [exists ""; reflexivity|].
  cbn [trim_end]. cbv zeta.
  destruct (leading_space (String c (trim_end s))) as [[|c' r]|];
    [exists (String c s); reflexivity | | ];
    exists u; rewrite append_String, <- IH; reflexivity.
Qed.

Lemma trim_end_idem (s : string) : trim_end (trim_end s) = trim_end s.
Proof.
  induction s as [|c s IH]; [reflexivity|].
  cbn [trim_end]. cbv zeta.
  destruct (leading_space (String c (trim_end s))) as [[|c' r]|] eqn:Hs; [reflexivity | | ];
    cbn [trim_end]; cbv zeta; rewrite IH, Hs; reflexivity.
Qed.

(** Trimming a trimmed string changes nothing. *)
Lemma trim_idem (s : string) : trim (trim s) = trim s.
Proof.
  unfold trim.
  assert (Hstart : leading_space (trim_start s) = None)
    by (apply strip_start_done; reflexivity).
  assert (Hend : leading_space (trim_end (trim_start s)) = None).
  { destruct (leading_space (trim_end (trim_start s))) as [rest|] eqn:Hp; [|reflexivity].
    destruct (trim_end_prefix (trim_start s)) as [u Hu].
    apply (leading_space_app _ _ u) in Hp. rewrite <- Hu, Hstart in Hp. discriminate. }
  unfold trim_start at 1. rewrite (strip_start_fixed _ _ Hend). apply trim_end_idem.
Qed.

Lemma survivors_trimmed (rows : list value) :
  Forall (fun t => t <> "" /\ trim t = t) (survivors rows).
Proof.
  apply Forall_forall. intros t Ht. unfold survivors in Ht.
  apply list_elem_of_omap in Ht as (r & _ & Hk).
  apply kept_spec in Hk as (s & _ & <- & Hne). split; [exact Hne | apply trim_idem].
Qed.

(** The three statements at the head of [loadTSV] and the callback, with the
    store they leave. *)
Lemma loadTSV_store (ev : papa_event) (w : world) :
  STATE (fst (loadTSV ev w)) = loaded_store ev.
Proof.
  destruct w as [st pg rq pr]. destruct ev as [results|err]; [|reflexivity].
  unfold loadTSV, on_complete, loaded_store, rows_of. step_actions.
  destruct (if ToBoolean (get_opt results "data") then get_opt results "data" else VArr [])
    as [| |b|n|s|rows|props]; try reflexivity.
  rewrite Array_map_row_text, filter_nonempty_survivors. cbn [elements].
  destruct (0 <? length (survivors rows))%nat; reflexivity.
Qed.


Lemma loadTSV_returns (ev : papa_event) (w : world) : snd (loadTSV ev w) = Normal tt.
Proof.
  destruct w as [st pg rq pr]. destruct ev as [results|err]; [|reflexivity].
  unfold loadTSV, on_complete. step_actions.
  destruct (Array_map row_text _) as [mapped|e]; [|reflexivity].
  destruct (0 <? length (filter _ mapped))%nat; reflexivity.
Qed.

(** X11. A load starts from nothing: the store it leaves depends on what
    Papa Parse reports and on nothing else, so a load after another leaves
    what it would have left alone, and nothing of the earlier store is
    merged in. *)
Theorem load_replaces_the_store (ev1 ev2 : papa_event) (w w0 : world) :
  STATE (fst (loadTSV ev2 w)) = STATE (fst (loadTSV ev2 w0)) /\
  STATE (fst ((loadTSV ev1;; loadTSV ev2) w)) = STATE (fst (loadTSV ev2 w)).
Proof.
  split; [rewrite !loadTSV_store; reflexivity|].
  change ((loadTSV ev1;; loadTSV ev2) w)
    with (match loadTSV ev1 w with
          | (w', Normal _) => loadTSV ev2 w'
          | (w', Throw e) => (w', Throw e)
          end).
  pose proof (loadTSV_returns ev1 w) as Hnormal.
  destruct (loadTSV ev1 w) as [w' [[]|e]]; [|discriminate Hnormal].
  rewrite !loadTSV_store. reflexivity.
Qed.

(** ** The draw *)

(** The double the program rounds to stays near the real result. *)
Lemma round_half_even_upper (y : Q) : (inject_Z (round_half_even y) <= y + (1 # 2))%Q.
Proof.
  unfold round_half_even. cbv zeta.
  pose proof (Qfloor_le y) as Hle.
  destruct (y - inject_Z (Qfloor y) ?= 1 # 2)%Q eqn:Hc.
  - apply Qeq_alt in Hc. destruct (Z.even (Qfloor y)); [lra|].
    rewrite inject_Z_plus. change (inject_Z 1) with 1%Q. lra.
  - lra.
  - apply Qgt_alt in Hc. rewrite inject_Z_plus. change (inject_Z 1) with 1%Q. lra.
Qed.

Lemma Qfloor_nonneg (y : Q) : (0 <= y)%Q -> (0 <= Qfloor y)%Z.
Proof.
  intros Hy. pose proof (Qlt_floor y) as Hlt.
  assert (H : (inject_Z 0 < inject_Z (Qfloor y + 1))%Q) by (change (inject_Z 0) with 0%Q; lra).
  rewrite <- Zlt_Qlt in H. lia.
Qed.

Lemma round_half_even_nonneg (y : Q) : (0 <= y)%Q -> (0 <= round_half_even y)%Z.
Proof.
  intros Hy. pose proof (Qfloor_nonneg y Hy). unfold round_half_even. cbv zeta.
  destruct (_ ?= _)%Q; [destruct (Z.even _)| |]; lia.
Qed.

Lemma pow2_pos (k : Z) : (0 < 2 ^ k)%Q.
Proof. apply Qpower_0_lt. reflexivity. Qed.

Lemma ilog2_lower (x : Q) : (0 < x)%Q -> (2 ^ ilog2 x <= x)%Q.
Proof.
  intros Hx. unfold ilog2. cbv zeta.
  destruct (Qle_bool _ x) eqn:Ht; [apply Qle_bool_iff; exact Ht|].
  destruct x as [a b]. cbn [Qnum Qden].
  assert (Ha : (0 < a)%Z).
  { unfold Qlt in Hx. cbn in Hx. lia. }
  set (la := Z.log2 a). set (lb := Z.log2 (Z.pos b)).
  assert (Hla : (2 ^ la <= a)%Z) by (apply Z.log2_spec; exact Ha).
  assert (Hlb : (Z.pos b < 2 ^ (lb + 1))%Z).
  { replace (lb + 1)%Z with (Z.succ lb) by lia. apply Z.log2_spec. lia. }
  assert (H0a : (0 <= la)%Z) by apply Z.log2_nonneg.
  assert (H0b : (0 <= lb)%Z) by apply Z.log2_nonneg.
  rewrite (Qmake_Qdiv a b). apply Qle_shift_div_l; [reflexivity|].
  assert (E : (2 ^ (la - lb - 1) * 2 ^ (lb + 1) == 2 ^ la)%Q).
  { rewrite <- Qpower_plus by discriminate. f_equiv. lia. }
  assert (HA : (2 ^ la <= inject_Z a)%Q).
  { change 2%Q with (inject_Z 2). rewrite <- Zpower_Qpower by exact H0a.
    rewrite <- Zle_Qle. exact Hla. }
  assert (HB : (inject_Z (Z.pos b) <= 2 ^ (lb + 1))%Q).
  { change 2%Q with (inject_Z 2). rewrite <- Zpower_Qpower by lia.
    rewrite <- Zle_Qle. lia. }
  pose proof (pow2_pos (la - lb - 1)) as HP.
  apply Qle_trans with (2 ^ (la - lb - 1) * 2 ^ (lb + 1))%Q; [|rewrite E; exact HA].
  apply Qmult_le_l; [exact HP | exact HB].
Qed.

Lemma round_positive_bounds (x : Q) :
  (0 < x)%Q ->
  (0 <= round_positive x)%Q /\
  (round_positive x <= x + x * 2 ^ (-53) + 2 ^ (-1075))%Q.
Proof.
  intros Hx. unfold round_positive. cbv zeta.
  set (q := Z.max (ilog2 x - 52) (-1074)).
  pose proof (pow2_pos q) as HP.
  assert (Hy : (0 <= x / 2 ^ q)%Q).
  { apply Qle_shift_div_l; [exact HP | lra]. }
  split.
  - apply Qmult_le_0_compat; [|lra].
    change 0%Q with (inject_Z 0). rewrite <- Zle_Qle.
    apply round_half_even_nonneg, Hy.
  - pose proof (round_half_even_upper (x / 2 ^ q)) as Hup.
    assert (Hxq : (x / 2 ^ q * 2 ^ q == x)%Q) by (field; lra).
    assert (Hhalf : (2 ^ q * (1 # 2) <= x * 2 ^ (-53) + 2 ^ (-1075))%Q).
    { assert (Hq1 : (2 ^ q * (1 # 2) == 2 ^ (q - 1))%Q).
      { unfold Z.sub. rewrite Qpower_plus by discriminate. reflexivity. }
      rewrite Hq1.
      pose proof (pow2_pos (-1075)). pose proof (pow2_pos (-53)).
      destruct (Z.max_spec (ilog2 x - 52) (-1074)) as [[_ Hm]|[_ Hm]]; fold q in Hm.
      - rewrite Hm. change (-1074 - 1)%Z with (-1075)%Z.
        assert (0 <= x * 2 ^ (-53))%Q by (apply Qmult_le_0_compat; lra). lra.
      - rewrite Hm. replace (ilog2 x - 52 - 1)%Z with (ilog2 x + (-53))%Z by lia.
        rewrite Qpower_plus by discriminate.
        pose proof (ilog2_lower x Hx) as Hlow.
        assert (2 ^ ilog2 x * 2 ^ (-53) <= x * 2 ^ (-53))%Q
          by (apply Qmult_le_compat_r; lra).
        lra. }
    assert (Hm : (inject_Z (round_half_even (x / 2 ^ q)) * 2 ^ q
                  <= (x / 2 ^ q + (1 # 2)) * 2 ^ q)%Q)
      by (apply Qmult_le_compat_r; lra).
    rewrite Qmult_plus_distr_l, Hxq in Hm.
    rewrite (Qmult_comm (1 # 2)) in Hm. lra.
Qed.

Lemma round_double_zero (x : Q) : (x == 0)%Q -> round_double x = 0%Q.
Proof. intros Hx. unfold round_double. apply Qeq_alt in Hx. rewrite Hx. reflexivity. Qed.

(** The rounded product of a draw by a length stays below the length. *)
Lemma scaled_draw_bounds (r : Q) (n : nat) :
  unit_draw r -> (0 < n)%nat ->
  (0 <= Qfloor (round_double (r * inject_Z (Z.of_nat n))))%Z /\
  (Qfloor (round_double (r * inject_Z (Z.of_nat n))) < Z.of_nat n)%Z.
Proof.
  intros [H0 H1] Hn.
  assert (Hpos : (1 <= inject_Z (Z.of_nat n))%Q).
  { change 1%Q with (inject_Z 1). rewrite <- Zle_Qle. lia. }
  set (N := inject_Z (Z.of_nat n)) in *.
  assert (E53 : (2 ^ (-53) == 1 # 9007199254740992)%Q) by reflexivity.
  assert (E1075 : (2 ^ (-1075) < 1 # 81129638414606681695789005144064)%Q) by reflexivity.
  rewrite E53 in H1.
  assert (Hx0 : (0 <= r * N)%Q) by (apply Qmult_le_0_compat; lra).
  assert (HxN : (r * N <= (1 - (1 # 9007199254740992)) * N)%Q)
    by (apply Qmult_le_compat_r; lra).
  unfold round_double. destruct (r * N ?= 0)%Q eqn:Hc.
  - change (Qfloor 0) with 0%Z. lia.
  - apply Qlt_alt in Hc. lra.
  - apply Qgt_alt in Hc.
    destruct (round_positive_bounds (r * N) Hc) as [Hlo Hhi]. rewrite E53 in Hhi.
    split; [apply Qfloor_nonneg; exact Hlo|].
    rewrite Zlt_Qlt. fold N. eapply Qle_lt_trans; [apply Qfloor_le|]. lra.
Qed.

Lemma chooseRandom_index (r : Q) (arr : list string) :
  unit_draw r -> arr <> [] ->
  exists (i : nat) (t : string),
    chooseRandom r arr = Some t /\ arr !! i = Some t /\
    Z.of_nat i = Qfloor (round_double (r * inject_Z (Z.of_nat (length arr)))).
Proof.
  intros Hr Hne.
  assert (Hn : (0 < length arr)%nat) by (destruct arr; [congruence | cbn; lia]).
  destruct (scaled_draw_bounds r (length arr) Hr Hn) as [Hlo Hhi].
  unfold chooseRandom. cbv zeta.
  set (i := Qfloor (round_double (r * inject_Z (Z.of_nat (length arr))))) in *.
  destruct (Z.ltb_spec i 0) as [Hneg|_]; [lia|].
  destruct (lookup_lt_is_Some_2 arr (Z.to_nat i)) as [t Ht]; [lia|].
  exists (Z.to_nat i), t. split; [exact Ht|]. split; [exact Ht|]. lia.
Qed.

(** X12. With a draw that [Math.random()] can return, [chooseRandom]
    returns an element of a non-empty array and never [undefined], although
    the product of the draw by the length is rounded and may be rounded up:
    the element at the integer part of the rounded product, which is an
    index of the array.  On the empty array it returns [undefined]. *)
Theorem chooseRandom_stays_in_bounds (r : Q) (arr : list string) :
  unit_draw r ->
  (arr <> [] ->
   exists (i : nat) (t : string),
     chooseRandom r arr = Some t /\ arr !! i = Some t /\ (i < length arr)%nat /\
     Z.of_nat i = Qfloor (round_double (r * inject_Z (Z.of_nat (length arr))))) /\
  chooseRandom r [] = None.
Proof.
  intros Hr. split.
  - intros Hne. destruct (chooseRandom_index r arr Hr Hne) as (i & t & Hc & Hi & Hfl).
    exists i, t. split; [exact Hc|]. split; [exact Hi|]. split; [|exact Hfl].
    apply lookup_lt_Some in Hi. exact Hi.
  - unfold chooseRandom. cbn [length]. cbv zeta.
    rewrite round_double_zero by (cbn; ring). reflexivity.
Qed.

(** The product rounded up: at the draw 0.8333333333333333 over six reviews
    the real product is below 5, the double it is rounded to is 5, and the
    sixth review is returned. *)
Lemma chooseRandom_rounds_up :
  chooseRandom (7505999378950826 # 9007199254740992) ["a"; "b"; "c"; "d"; "e"; "f"]
  = Some "f" /\
  ((7505999378950826 # 9007199254740992) * 6 < 5)%Q.
Proof. split; vm_compute; reflexivity. Qed.

(** X12, at the same draw. *)
Lemma chooseRandom_stays_in_bounds_witness :
  let arr := ["a"; "b"; "c"; "d"; "e"; "f"] in
  exists (i : nat) (t : string),
    chooseRandom (7505999378950826 # 9007199254740992) arr = Some t /\
    arr !! i = Some t /\ (i < length arr)%nat /\
    Z.of_nat i
    = Qfloor (round_double ((7505999378950826 # 9007199254740992)
                            * inject_Z (Z.of_nat (length arr)))).
Proof.
  intros arr.
  assert (Hr : unit_draw (7505999378950826 # 9007199254740992)).
  { split; apply Qle_bool_iff; vm_compute; reflexivity. }
  apply (proj1 (chooseRandom_stays_in_bounds (7505999378950826 # 9007199254740992) arr Hr)).
  discriminate.
Defined.

(** ** What an analysis does to the page *)

Section Analysis.
Context `{Host}.

(** [renderSentiment] writes to the three sentiment elements and moves the
    focus, and to nothing else. *)
Lemma renderSentiment_frame (r : option result) (w : world) :
  exists pg,
    renderSentiment r w = (mkWorld (STATE w) pg (requests w) (loading w), Normal tt) /\
    pg !! ("sentimentLabel", "textContent") = Some (sentiment_text r) /\
    (forall el attr : string,
       el <> "sentimentIcon" -> el <> "sentimentLabel" -> el <> "sentimentScore" ->
       el <> "document" ->
       pg !! (el, attr) = page w !! (el, attr)).
Proof.
  destruct w as [st pg rq pr]. unfold renderSentiment, sentiment_text. step_actions.
  destruct r as [res|].
  - destruct (String.eqb (verdict res) "positive"); [|destruct (String.eqb (verdict res) "negative")];
      eexists; (split; [reflexivity|]); (split; [simplify_map_eq; reflexivity|]);
      intros el attr H1 H2 H3 H4; cbn [page];
      rewrite !lookup_insert_ne, lookup_delete_ne by congruence; reflexivity.
  - eexists. split; [reflexivity|]. split; [simplify_map_eq; reflexivity|].
    intros el attr H1 H2 H3 H4. cbn [page].
    rewrite !lookup_insert_ne, lookup_delete_ne by congruence. reflexivity.
Qed.

(** Replaces a call of [renderSentiment] by the world it leaves. *)
Ltac render_frame :=
  match goal with
  | |- context [renderSentiment ?r ?w0] =>
      let pg := fresh "pg" in
      let Hrender := fresh "Hrender" in
      let Hlabel := fresh "Hlabel" in
      let Hframe := fresh "Hframe" in
      destruct (renderSentiment_frame r w0) as (pg & Hrender & Hlabel & Hframe);
      rewrite Hrender; cbn [page] in Hframe
  end.

(** X13. An analysis never writes to the store nor to the promise of the
    load, whichever way it ends, an exception included; and it issues at
    most one request, a POST to the endpoint of the classifier. *)
Theorem analysis_keeps_the_store (env : environment) (w : world) :
  let w' := fst (analyzeRandom env w) in
  STATE w' = STATE w /\
  loading w' = loading w /\
  (requests w' = requests w \/
   exists req : request,
     requests w' = req :: requests w /\ req_url req = endpoint /\ req_method req = "POST").
Proof.
  intros w'. subst w'. destruct w as [[rv ld] pg rq pr].
  unfold analyzeRandom, fetch. step_actions.
  destruct (negb ld || (length rv =? 0)%nat); [step_actions; auto|].
  render_frame. step_actions.
  destruct (fetched env) as [resp|e]; [|step_actions; repeat split; right; eexists; repeat split].
  destruct (ok resp); cbn [negb].
  - destruct (json resp) as [data|e];
      [|step_actions; repeat split; right; eexists; repeat split].
    destruct (normalizeHfResponse data) as [[r after]|e]; cbn [fmap completion_fmap].
    + step_actions. render_frame. step_actions. repeat split; right; eexists; repeat split.
    + repeat split; right; eexists; repeat split.
  - step_actions.
    destruct (status resp =? 401)%nat; [|destruct (status resp =? 429)%nat;
      [|destruct (status resp =? 503)%nat]];
      step_actions; repeat split; right; eexists; repeat split.
Qed.

(** X14. With reviews loaded and a draw [Math.random()] can return, an
    analysis issues
    exactly one request: a POST to the endpoint whose body is
    [{inputs: t}] for a review [t] of the store, the one it shows in the
    review display.  The request is of type JSON, and carries the
    authorization [Bearer token] exactly when the token field, trimmed, is
    not empty. *)
Theorem analysis_sends_a_stored_review (env : environment) (w : world) :
  loaded (STATE w) = true -> reviews (STATE w) <> [] ->
  unit_draw (random env) ->
  let w' := fst (analyzeRandom env w) in
  let token := trim (default "" (page w !! ("tokenInput", "value"))) in
  exists t : string,
    t ∈ reviews (STATE w) /\
    requests w'
    = mkRequest endpoint "POST"
        (("Content-Type", "application/json") ::
         (if String.eqb token "" then [] else [("Authorization", "Bearer " +:+ token)]))
        (VObj [("inputs", VStr t)])
      :: requests w /\
    page w' !! ("reviewDisplay", "textContent")
    = Some (if String.eqb t "" then "(Empty review)" else t).
Proof.
  intros Hloaded Hrev Hdraw w' token. subst w' token. destruct w as [[rv ld] pg rq pr].
  cbn [STATE loaded reviews page] in *. subst ld.
  assert (Hguard : negb true || (length rv =? 0)%nat = false).
  { destruct rv; [congruence | reflexivity]. }
  destruct (chooseRandom_index (random env) rv Hdraw Hrev) as (i & t & Hchoose & Hi & _).
  exists t. split; [exact (list_elem_of_lookup_2 _ _ _ Hi)|].
  unfold analyzeRandom, fetch. step_actions. rewrite Hguard, Hchoose. cbn [from_option].
  render_frame. step_actions.
  rewrite (Hframe "tokenInput" "value") by discriminate.
  rewrite !lookup_insert_ne, lookup_delete_ne, !lookup_insert_ne by discriminate.
  assert (Hdisplay : pg0 !! ("reviewDisplay", "textContent")
                     = Some (if String.eqb t "" then "(Empty review)" else t)).
  { rewrite (Hframe "reviewDisplay" "textContent") by discriminate.
    simplify_map_eq. reflexivity. }
  destruct (String.eqb (trim (default "" (pg !! ("tokenInput", "value")))) ""); cbn [negb];
    (destruct (fetched env) as [resp|e];
     [destruct (ok resp); cbn [negb];
      [destruct (json resp) as [data|e];
       [destruct (normalizeHfResponse data) as [[r after]|e]; cbn [fmap completion_fmap];
        [step_actions; render_frame; step_actions | ]
       | step_actions]
      | step_actions;
        destruct (status resp =? 401)%nat; [|destruct (status resp =? 429)%nat;
          [|destruct (status resp =? 503)%nat]]; step_actions]
     | step_actions]);
    (split; [reflexivity|]); cbn [fst page];
    rewrite ?lookup_insert_ne by discriminate;
    try (rewrite (Hframe0 "reviewDisplay" "textContent") by discriminate);
    exact Hdisplay.
Qed.

(** X15. An analysis that gets past the check of the store ends with an
    error or with a result, not both.  When the request fails, the status
    is not a success, or the body is not JSON, it completes with the error
    box shown and the sentiment left at no result.  When the response is a
    success with a JSON body on which the normalizer returns, it completes
    with the error box hidden and empty, and the sentiment label reads
    Positive, Negative or Neutral by the verdict of the result, or no result
    when there is none. *)
Theorem analysis_shows_error_or_result (env : environment) (w : world) :
  loaded (STATE w) = true -> reviews (STATE w) <> [] ->
  let w' := fst (analyzeRandom env w) in
  ((exists e, fetched env = Throw e) \/
   (exists resp, fetched env = Normal resp /\ ok resp = false) \/
   (exists resp e, fetched env = Normal resp /\ json resp = Throw e) ->
   snd (analyzeRandom env w) = Normal tt /\
   page w' !! ("errorBox", "style.display") = Some "block" /\
   page w' !! ("sentimentLabel", "textContent") = Some "Neutral (no result)") /\
  (forall resp data r after,
     fetched env = Normal resp -> ok resp = true -> json resp = Normal data ->
     normalizeHfResponse data = Normal (r, after) ->
     snd (analyzeRandom env w) = Normal tt /\
     page w' !! ("errorBox", "style.display") = Some "none" /\
     page w' !! ("errorBox", "textContent") = Some "" /\
     page w' !! ("sentimentLabel", "textContent") = Some (sentiment_text r)).
Proof.
  intros Hloaded Hrev w'. subst w'. destruct w as [[rv ld] pg rq pr].
  cbn [STATE loaded reviews] in Hloaded, Hrev. subst ld.
  assert (Hguard : negb true || (length rv =? 0)%nat = false).
  { destruct rv; [congruence | reflexivity]. }
  unfold analyzeRandom, fetch. step_actions. rewrite Hguard. render_frame. step_actions.
  split.
  - intros Hfail.
    destruct (fetched env) as [resp|e] eqn:Hfetch.
    2:{ step_actions. repeat split; simplify_map_eq; try reflexivity; try exact Hlabel. }
    destruct (ok resp) eqn:Hok; cbn [negb].
    + destruct Hfail as [(e & He) | [(resp' & [= <-] & Hno) | (resp' & e & [= <-] & Hjson)]];
        [discriminate He | congruence |].
      rewrite Hjson. step_actions. repeat split; simplify_map_eq; try reflexivity; try exact Hlabel.
    + step_actions.
      destruct (status resp =? 401)%nat; [|destruct (status resp =? 429)%nat;
        [|destruct (status resp =? 503)%nat]];
        step_actions; repeat split; simplify_map_eq; try reflexivity; try exact Hlabel.
  - intros resp data r after Hfetch Hok Hjson Hnorm.
    rewrite Hfetch, Hok. cbn [negb]. rewrite Hjson, Hnorm. cbn [fmap completion_fmap fst].
    step_actions. render_frame. step_actions. cbn [fst snd page].
    split; [reflexivity|]. rewrite !lookup_insert_ne by discriminate.
    rewrite !(Hframe0 "errorBox") by discriminate.
    rewrite !(Hframe "errorBox") by discriminate.
    repeat split; simplify_map_eq; try reflexivity; try exact Hlabel0.
Qed.

End Analysis.

(** ** The status chip and the error box *)

(** X16. Whatever the status chip showed, after [setStatus mode text] with
    a mode that holds no white space (the empty mode included) it carries
    the class [ready] exactly when the mode is [ready] and the class [error]
    exactly when the mode is [error], never both, and its label reads
    [text]. *)
Theorem status_chip_shows_one_mode (mode text : string) (w : world) :
  class_token mode ->
  let pg := page (fst (setStatus mode text w)) in
  (is_Some (pg !! ("loadStatus", "class:ready")) <-> mode = "ready") /\
  (is_Some (pg !! ("loadStatus", "class:error")) <-> mode = "error") /\
  ~ (is_Some (pg !! ("loadStatus", "class:ready")) /\
     is_Some (pg !! ("loadStatus", "class:error"))) /\
  pg !! ("loadStatus.label", "textContent") = Some text.
Proof.
  intros _ pg.
  assert (Hready : is_Some (pg !! ("loadStatus", "class:ready")) <-> mode = "ready").
  { subst pg. destruct w as [st pg rq pr]. unfold setStatus. step_actions.
    destruct (String.eqb_spec mode "") as [-> | Hne]; cbn [negb]; step_actions.
    - simplify_map_eq. split; [intros [x Hx]; discriminate | discriminate].
    - rewrite lookup_insert_ne by discriminate.
      destruct (String.eqb_spec mode "ready") as [-> | Hnr].
      + cbn. simplify_map_eq. split; [reflexivity | eauto].
      + rewrite lookup_insert_ne by (intros [= E]; change (mode = "ready") in E; congruence).
        simplify_map_eq. split; [intros [x Hx]; discriminate | congruence]. }
  assert (Herror : is_Some (pg !! ("loadStatus", "class:error")) <-> mode = "error").
  { subst pg. destruct w as [st pg rq pr]. unfold setStatus. step_actions.
    destruct (String.eqb_spec mode "") as [-> | Hne]; cbn [negb]; step_actions.
    - simplify_map_eq. split; [intros [x Hx]; discriminate | discriminate].
    - rewrite lookup_insert_ne by discriminate.
      destruct (String.eqb_spec mode "error") as [-> | Hnr].
      + cbn. simplify_map_eq. split; [reflexivity | eauto].
      + rewrite lookup_insert_ne by (intros [= E]; change (mode = "error") in E; congruence).
        simplify_map_eq. split; [intros [x Hx]; discriminate | congruence]. }
  split; [exact Hready|]. split; [exact Herror|]. split.
  - intros [Hr He]. apply Hready in Hr. apply Herror in He. congruence.
  - subst pg. destruct w as [st pg rq pr]. unfold setStatus. step_actions.
    destruct (negb (String.eqb mode "")); step_actions; simplify_map_eq; reflexivity.
Qed.

(** X17. [clearError] takes back what [showError] did to the error box:
    after the two the box is empty, hidden and out of the tab order, and
    every element of the page is as after [clearError] alone; only where
    the focus is may differ.  Neither touches the store or the requests. *)
Theorem clearError_takes_back_showError (msg : string) (w : world) :
  let w' := fst ((showError msg;; clearError) w) in
  snd ((showError msg;; clearError) w) = Normal tt /\
  STATE w' = STATE w /\ requests w' = requests w /\
  (forall el attr : string,
     el <> "document" -> page w' !! (el, attr) = page (fst (clearError w)) !! (el, attr)) /\
  page w' !! ("errorBox", "textContent") = Some "" /\
  page w' !! ("errorBox", "style.display") = Some "none" /\
  page w' !! ("errorBox", "tabindex") = None.
Proof.
  destruct w as [st pg rq pr]. unfold showError, clearError. step_actions.
  split; [reflexivity|]. split; [reflexivity|]. split; [reflexivity|].
  split; [|repeat split; simplify_map_eq; reflexivity].
  intros el attr Hel.
  repeat (rewrite lookup_insert || rewrite lookup_delete); repeat case_decide;
    subst; try reflexivity; try congruence.
Qed.

(** ** Sessions *)

Section Sessions.
Context `{Host}.

Lemma loaded_store_ok (ev : papa_event) : store_ok (loaded_store ev).
Proof.
  destruct ev as [results|err]; split; cbn [loaded_store loaded reviews].
  - destruct (survivors (rows_of results)); cbn; split; intros; congruence.
  - apply survivors_trimmed.
  - split; intros; congruence.
  - constructor.
Qed.

(** A load writes to the status chip, the count badge, the error box and
    the busy mark of the reload button, and to nothing else of the page; it
    issues no request. *)
Lemma loadTSV_frame (ev : papa_event) (w : world) :
  requests (fst (loadTSV ev w)) = requests w /\
  forall el attr : string,
    el <> "loadStatus" -> el <> "loadStatus.label" -> el <> "countBadge" ->
    el <> "errorBox" -> el <> "document" -> (el, attr) <> ("reloadBtn", "aria-busy") ->
    page (fst (loadTSV ev w)) !! (el, attr) = page w !! (el, attr).
Proof.
  destruct w as [st pg rq pr]. destruct ev as [results|err].
  - unfold loadTSV, on_complete. step_actions.
    destruct (Array_map row_text _) as [mapped|e].
    + destruct (0 <? length (filter _ mapped))%nat; step_actions;
        (split; [reflexivity|]); simpl; intros el attr H1 H2 H3 H4 H5 H6;
        repeat ((rewrite lookup_insert_ne by congruence) || (rewrite lookup_delete_ne by congruence));
        reflexivity.
    + step_actions. split; [reflexivity|]. simpl. intros el attr H1 H2 H3 H4 H5 H6.
      repeat ((rewrite lookup_insert_ne by congruence) || (rewrite lookup_delete_ne by congruence)).
      reflexivity.
  - unfold loadTSV, on_error. step_actions. split; [reflexivity|].
    simpl. intros el attr H1 H2 H3 H4 H5 H6.
    repeat ((rewrite lookup_insert_ne by congruence) || (rewrite lookup_delete_ne by congruence)).
    reflexivity.
Qed.

(** [renderSentiment] writes to no property but the text, the tab index,
    the class of the icon and the focus. *)
Lemma renderSentiment_attributes (r : option result) (w : world) :
  exists pg,
    renderSentiment r w = (mkWorld (STATE w) pg (requests w) (loading w), Normal tt) /\
    (forall el attr : string,
       attr <> "textContent" -> attr <> "tabindex" -> attr <> "i.className" ->
       attr <> "activeElement" ->
       pg !! (el, attr) = page w !! (el, attr)).
Proof.
  destruct w as [st pg rq pr]. unfold renderSentiment. step_actions.
  destruct r as [res|].
  - destruct (String.eqb (verdict res) "positive"); [|destruct (String.eqb (verdict res) "negative")];
      eexists; (split; [reflexivity|]);
      intros el attr H1 H2 H3 H4; cbn [page];
      repeat ((rewrite lookup_insert_ne by congruence) || (rewrite lookup_delete_ne by congruence));
      reflexivity.
  - eexists. split; [reflexivity|].
    intros el attr H1 H2 H3 H4. cbn [page].
    repeat ((rewrite lookup_insert_ne by congruence) || (rewrite lookup_delete_ne by congruence)).
    reflexivity.
Qed.

Ltac render_attributes :=
  match goal with
  | |- context [renderSentiment ?r ?w0] =>
      let pg := fresh "pg" in
      let Hrender := fresh "Hrender" in
      let Hframe := fresh "Hframe" in
      destruct (renderSentiment_attributes r w0) as (pg & Hrender & Hframe);
      rewrite Hrender; cbn [page] in Hframe
  end.

Ltac keep_listeners Hf Hf' :=
  intros el attr H1 H2 H3 H4 H5 H6; cbn [fst page];
  repeat ((rewrite lookup_insert_ne by congruence) || (rewrite lookup_delete_ne by congruence));
  try (rewrite Hf' by assumption);
  try (rewrite Hf by assumption);
  repeat ((rewrite lookup_insert_ne by congruence) || (rewrite lookup_delete_ne by congruence));
  reflexivity.

(** What an analysis does besides writing texts, classes and marks: nothing
    to the store, to the promise of the load and to the listeners, and one
    request if the store is loaded, none if it is not. *)
Lemma analyzeRandom_effect (env : environment) (w : world) :
  let w' := fst (analyzeRandom env w) in
  STATE w' = STATE w /\
  loading w' = loading w /\
  (forall el attr : string,
     attr <> "textContent" -> attr <> "tabindex" -> attr <> "i.className" ->
     attr <> "activeElement" -> attr <> "style.display" -> attr <> "aria-busy" ->
     page w' !! (el, attr) = page w !! (el, attr)) /\
  (requests w' = requests w \/
   loaded (STATE w) = true /\ reviews (STATE w) <> [] /\
   exists headers,
     requests w'
     = mkRequest endpoint "POST" headers
         (VObj [("inputs",
                 from_option VStr VUndefined (chooseRandom (random env) (reviews (STATE w))))])
       :: requests w).
Proof.
  intros w'. subst w'. destruct w as [[rv ld] pg rq pr].
  unfold analyzeRandom, fetch. step_actions.
  destruct (negb ld || (length rv =? 0)%nat) eqn:Hguard.
  { step_actions. repeat split; [|left; reflexivity].
    intros el attr H1 H2 H3 H4 H5 H6.
    repeat ((rewrite lookup_insert_ne by congruence) || (rewrite lookup_delete_ne by congruence)).
    reflexivity. }
  apply orb_false_iff in Hguard as [Hld Hlen]. apply negb_false_iff in Hld. subst ld.
  assert (Hrv : rv <> []) by (intros ->; discriminate Hlen).
  render_attributes. step_actions.
  destruct (fetched env) as [resp|e].
  2:{ step_actions. repeat split; [keep_listeners Hframe Hframe | right; eauto]. }
  destruct (ok resp); cbn [negb].
  - destruct (json resp) as [data|e].
    2:{ step_actions. repeat split; [keep_listeners Hframe Hframe | right; eauto]. }
    destruct (normalizeHfResponse data) as [[r after]|e]; cbn [fmap completion_fmap].
    + step_actions. render_attributes. step_actions.
      repeat split; [keep_listeners Hframe Hframe0 | right; eauto].
    + repeat split; [keep_listeners Hframe Hframe | right; eauto].
  - step_actions.
    destruct (status resp =? 401)%nat; [|destruct (status resp =? 429)%nat;
      [|destruct (status resp =? 503)%nat]];
      step_actions; (repeat split; [keep_listeners Hframe Hframe | right; eauto]).
Qed.

Lemma loadTSV_fulfilled (ev : papa_event) (w : world) :
  loading (fst (loadTSV ev w)) = Fulfilled.
Proof.
  destruct w as [st pg rq pr]. destruct ev as [results|err]; [|reflexivity].
  unfold loadTSV, on_complete. step_actions.
  destruct (Array_map row_text _) as [mapped|e]; [|reflexivity].
  destruct (0 <? length (filter _ mapped))%nat; reflexivity.
Qed.

(** The world a reload leaves, by what the load leaves. *)
Lemma on_reload_world (load : papa_event) (w : world) :
  on_reload load w
  = (with_page (insert ("reloadBtn", "aria-busy") "false")
       (fst (loadTSV load (with_page (insert ("reloadBtn", "aria-busy") "true") w))),
     Normal tt).
Proof.
  unfold on_reload. step_actions.
  pose proof (loadTSV_returns load (with_page (insert ("reloadBtn", "aria-busy") "true") w))
    as Hret.
  unfold with_page in Hret |- *. cbn [STATE page requests loading] in Hret |- *.
  destruct (loadTSV load _) as [w1 [[]|e]]; [reflexivity | discriminate Hret].
Qed.

Lemma on_DOMContentLoaded_world (load : papa_event) (w : world) :
  on_DOMContentLoaded load w
  = (with_page (fun pg =>
                  <[("tokenInput", "on:keydown") := "enter"]>
                    (<[("analyzeBtn", "on:click") := "analyzeRandom"]>
                       (<[("reloadBtn", "on:click") := "reload"]>
                          (<[("reloadBtn", "aria-busy") := "false"]> pg))))
       (fst (loadTSV load (with_page (insert ("reloadBtn", "aria-busy") "true") w))),
     Normal tt).
Proof.
  unfold on_DOMContentLoaded, addEventListener. step_actions.
  pose proof (loadTSV_returns load (with_page (insert ("reloadBtn", "aria-busy") "true") w))
    as Hret.
  unfold with_page in Hret |- *. cbn [STATE page requests loading] in Hret |- *.
  destruct (loadTSV load _) as [w1 [[]|e]]; [reflexivity | discriminate Hret].
Qed.

Lemma click_analyze_lookup (env : environment) (w : world) :
  click_analyze env w
  = match page w !! ("analyzeBtn", "on:click") with
    | Some _ => (fst (analyzeRandom env w), Normal tt)
    | None => (w, Normal tt)
    end.
Proof.
  destruct w as [st pg rq pr]. unfold click_analyze, listens, unhandled.
  cbv [mbind action_bind mret action_ret getAttribute gets page]. cbn [String.append].
  destruct (pg !! _); reflexivity.
Qed.

Lemma handle_ClickReload (load : papa_event) (w : world) :
  handle (ClickReload load) w
  = match page w !! ("reloadBtn", "on:click") with
    | Some _ => (fst (on_reload load w), Normal tt)
    | None => (w, Normal tt)
    end.
Proof.
  destruct w as [st pg rq pr]. unfold handle, listens, unhandled.
  cbv [mbind action_bind mret action_ret getAttribute gets page]. cbn [String.append].
  destruct (pg !! _); reflexivity.
Qed.

Lemma handle_KeydownToken (key : string) (env : environment) (w : world) :
  handle (KeydownToken key env) w
  = match page w !! ("tokenInput", "on:keydown") with
    | Some _ => if String.eqb key "Enter" then click_analyze env w else (w, Normal tt)
    | None => (w, Normal tt)
    end.
Proof.
  destruct w as [st pg rq pr]. unfold handle, listens.
  cbv [mbind action_bind mret action_ret getAttribute gets page]. cbn [String.append].
  destruct (pg !! _); [destruct (String.eqb key "Enter")|]; reflexivity.
Qed.

(** X18. The page reacts to the user only once it is wired, and stays
    wired.  While no listener is attached, a click on either button and a
    key in the token field change nothing.  The listener of
    [DOMContentLoaded] attaches the three listeners, after its load has
    finished; and no event detaches them.  On a wired page the key Enter in
    the token field does what a click on the analyze button does, and any
    other key does nothing. *)
Theorem page_reacts_once_wired (w : world) :
  (unwired w ->
   forall (load : papa_event) (env : environment) (key : string),
     handle (ClickReload load) w = (w, Normal tt) /\
     handle (ClickAnalyze env) w = (w, Normal tt) /\
     handle (KeydownToken key env) w = (w, Normal tt)) /\
  (forall load : papa_event, wired (fst (handle (DOMContentLoaded load) w))) /\
  (wired w ->
   (forall e : ui_event, wired (fst (handle e w))) /\
   (forall env : environment,
      handle (KeydownToken "Enter" env) w = handle (ClickAnalyze env) w) /\
   (forall (env : environment) (key : string),
      key <> "Enter" -> handle (KeydownToken key env) w = (w, Normal tt))).
Proof.
  assert (Hload : forall load w0, wired w0 ->
            wired (fst (loadTSV load (with_page (insert ("reloadBtn", "aria-busy") "true") w0)))).
  { intros load w0 (Hr & Ha & Ht).
    destruct (loadTSV_frame load (with_page (insert ("reloadBtn", "aria-busy") "true") w0))
      as [_ Hframe].
    unfold wired. rewrite !Hframe by congruence. destruct w0 as [st pg rq pr].
    cbn [with_page page] in *. rewrite !lookup_insert_ne by congruence. auto. }
  assert (Hboot : forall load, wired (fst (handle (DOMContentLoaded load) w))).
  { intros load. unfold handle, unhandled. rewrite on_DOMContentLoaded_world.
    cbn [fst]. unfold wired, with_page. cbn [page]. repeat split; simplify_map_eq; reflexivity. }
  split; [|split; [exact Hboot|]].
  - intros (Hr & Ha & Ht) load env key.
    rewrite handle_ClickReload, handle_KeydownToken. unfold handle at 1.
    rewrite click_analyze_lookup, Hr, Ha, Ht. auto.
  - intros (Hr & Ha & Ht).
    assert (Hclick : forall env, wired (fst (click_analyze env w))).
    { intros env. rewrite click_analyze_lookup, Ha. cbn [fst].
      destruct (analyzeRandom_effect env w) as (_ & _ & Hframe & _).
      unfold wired. rewrite !Hframe by discriminate. auto. }
    split; [|split].
    + intros [load|load|env|key env].
      * apply Hboot.
      * rewrite handle_ClickReload, Hr, on_reload_world. cbn [fst].
        destruct (Hload load w (conj Hr (conj Ha Ht))) as (Hr' & Ha' & Ht').
        unfold wired, with_page. cbn [page].
        rewrite !lookup_insert_ne by congruence. auto.
      * apply Hclick.
      * rewrite handle_KeydownToken, Ht.
        destruct (String.eqb key "Enter"); [apply Hclick|cbn [fst]; unfold wired; auto].
    + intros env. rewrite handle_KeydownToken, Ht. reflexivity.
    + intros env key Hkey. rewrite handle_KeydownToken, Ht.
      destruct (String.eqb_spec key "Enter"); [contradiction | reflexivity].
Qed.

(** X19. A reload always finishes.  The listener of [DOMContentLoaded],
    and a click on the reload button of a wired page, leave the reload
    button not busy whatever the load gave, the store as the load filled
    it, and the requests made so far untouched. *)
Theorem reload_leaves_button_idle (load : papa_event) (e : ui_event) (w : world) :
  e = DOMContentLoaded load \/ e = ClickReload load /\ wired w ->
  let w' := fst (handle e w) in
  snd (handle e w) = Normal tt /\
  page w' !! ("reloadBtn", "aria-busy") = Some "false" /\
  STATE w' = loaded_store load /\
  requests w' = requests w.
Proof.
  set (w1 := with_page (insert ("reloadBtn", "aria-busy") "true") w).
  assert (Hst : STATE (fst (loadTSV load w1)) = loaded_store load) by apply loadTSV_store.
  assert (Hrq : requests (fst (loadTSV load w1)) = requests w).
  { destruct (loadTSV_frame load w1) as [-> _]. destruct w; reflexivity. }
  intros [->|[-> (Hr & _ & _)]]; cbv zeta.
  - unfold handle, unhandled. rewrite on_DOMContentLoaded_world. fold w1. cbn [fst snd].
    unfold with_page. cbn [STATE page requests].
    repeat split; [simplify_map_eq; reflexivity | exact Hst | exact Hrq].
  - rewrite handle_ClickReload, Hr, on_reload_world. fold w1. cbn [fst snd].
    unfold with_page. cbn [STATE page requests].
    repeat split; [simplify_map_eq; reflexivity | exact Hst | exact Hrq].
Qed.

Lemma STATE_with_page (f : gmap (string * string) string -> gmap (string * string) string)
    (w : world) : STATE (with_page f w) = STATE w.
Proof. reflexivity. Qed.

Lemma requests_with_page (f : gmap (string * string) string -> gmap (string * string) string)
    (w : world) : requests (with_page f w) = requests w.
Proof. reflexivity. Qed.

(** What a load between the two settings of the busy flag leaves. *)
Lemma reload_world_sound (load : papa_event) (w : world) :
  let w1 := with_page (insert ("reloadBtn", "aria-busy") "true") w in
  snd (loadTSV load w1) = Normal tt /\
  STATE (fst (loadTSV load w1)) = loaded_store load /\
  requests (fst (loadTSV load w1)) = requests w.
Proof.
  cbv zeta. split; [apply loadTSV_returns|]. split; [apply loadTSV_store|].
  destruct (loadTSV_frame load (with_page (insert ("reloadBtn", "aria-busy") "true") w))
    as [-> _].
  destruct w; reflexivity.
Qed.

(** One event keeps a sound store and sound requests. *)
Lemma handle_sound (e : ui_event) (w : world) :
  store_ok (STATE w) -> Forall request_ok (requests w) ->
  (forall env, e = ClickAnalyze env \/ (exists key, e = KeydownToken key env) ->
               unit_draw (random env)) ->
  snd (handle e w) = Normal tt /\
  store_ok (STATE (fst (handle e w))) /\
  Forall request_ok (requests (fst (handle e w))) /\
  exists sent, requests (fst (handle e w)) = sent ++ requests w.
Proof.
  intros Hstore Hreqs Hdraw.
  assert (Hclick : forall env, unit_draw (random env) ->
            snd (click_analyze env w) = Normal tt /\
            store_ok (STATE (fst (click_analyze env w))) /\
            Forall request_ok (requests (fst (click_analyze env w))) /\
            exists sent, requests (fst (click_analyze env w)) = sent ++ requests w).
  { intros env Hdr. rewrite click_analyze_lookup.
    destruct (page w !! ("analyzeBtn", "on:click")); cbn [fst snd];
      [|split; [reflexivity|split; [exact Hstore|split; [exact Hreqs|exists []; reflexivity]]]].
    destruct (analyzeRandom_effect env w) as (Hst & _ & _ & Hrq).
    rewrite Hst. split; [reflexivity|]. split; [exact Hstore|]. split.
    - destruct Hrq as [->|(Hl & Hne & headers & ->)]; [exact Hreqs|].
      constructor; [|exact Hreqs].
      destruct (chooseRandom_index (random env) (reviews (STATE w)) Hdr Hne)
        as (i & t & Hchoose & Hi & _).
      rewrite Hchoose. cbn [from_option].
      destruct Hstore as [_ Hall]. rewrite Forall_forall in Hall.
      destruct (Hall t (list_elem_of_lookup_2 _ _ _ Hi)) as [Hne' Htrim].
      repeat split; exists t; auto.
    - destruct Hrq as [->|(_ & _ & headers & ->)]; [exists []; reflexivity|].
      eexists [_]; reflexivity. }
  destruct e as [load|load|env|key env].
  - destruct (reload_world_sound load w) as (Hret & Hst & Hrq).
    unfold handle, unhandled. rewrite on_DOMContentLoaded_world. cbn [fst snd].
    rewrite STATE_with_page, requests_with_page, Hst, Hrq.
    split; [reflexivity|]. split; [apply loaded_store_ok|]. split; [exact Hreqs|].
    exists []; reflexivity.
  - rewrite handle_ClickReload.
    destruct (page w !! ("reloadBtn", "on:click")); cbn [fst snd];
      [|split; [reflexivity|split; [exact Hstore|split; [exact Hreqs|exists []; reflexivity]]]].
    destruct (reload_world_sound load w) as (Hret & Hst & Hrq).
    rewrite on_reload_world. cbn [fst].
    rewrite STATE_with_page, requests_with_page, Hst, Hrq.
    split; [reflexivity|]. split; [apply loaded_store_ok|]. split; [exact Hreqs|].
    exists []; reflexivity.
  - apply Hclick, Hdraw. left. reflexivity.
  - rewrite handle_KeydownToken.
    destruct (page w !! ("tokenInput", "on:keydown"));
      [destruct (String.eqb key "Enter"); [apply Hclick, Hdraw; right; eauto|]|];
      cbn [fst snd];
      (split; [reflexivity|split; [exact Hstore|split; [exact Hreqs|exists []; reflexivity]]]).
Qed.

(** A sequence of events of the user keeps a sound store and sound
    requests. *)
Lemma run_sound (events : list ui_event) (w : world) :
  store_ok (STATE w) -> Forall request_ok (requests w) -> Forall user_event events ->
  snd (run events w) = Normal tt /\
  store_ok (STATE (fst (run events w))) /\
  Forall request_ok (requests (fst (run events w))) /\
  exists sent, requests (fst (run events w)) = sent ++ requests w.
Proof.
  intros Hstore Hreqs Hevents. revert w Hstore Hreqs.
  induction Hevents as [|e rest He Hrest IH]; intros w Hstore Hreqs.
  - cbn. split; [reflexivity|split; [exact Hstore|split; [exact Hreqs|exists []; reflexivity]]].
  - assert (Hdraw : forall env, e = ClickAnalyze env \/ (exists key, e = KeydownToken key env) ->
                                unit_draw (random env)).
    { intros env [-> | [key ->]]; exact He. }
    destruct (handle_sound e w Hstore Hreqs Hdraw) as (Hret & Hstore1 & Hreqs1 & sent1 & Hsent1).
    cbn [run]. cbv [mbind action_bind].
    destruct (handle e w) as [w1 c1]. cbn [fst snd] in *. subst c1.
    destruct (IH w1 Hstore1 Hreqs1) as (Hret2 & Hstore2 & Hreqs2 & sent2 & Hsent2).
    split; [exact Hret2|]. split; [exact Hstore2|]. split; [exact Hreqs2|].
    exists (sent2 ++ sent1). rewrite Hsent2, Hsent1, app_assoc. reflexivity.
Qed.

(** X20. Whatever the user does and whatever the loads and the network
    give, the page never sends anything but reviews.  From a page with no
    listener attached, through the one [DOMContentLoaded] of the document
    and then any sequence of clicks and keys handled one after another, with
    draws [Math.random()] can return: every event is handled to its end,
    the store is marked loaded exactly when it holds a review and its
    reviews are non-empty and trimmed, the requests made before stay in
    place, and each request added is a POST to the classifier whose body is
    [{inputs: t}] for a non-empty, trimmed text [t]. *)
Theorem session_sends_only_reviews
    (load : papa_event) (events : list ui_event) (w : world) :
  unwired w -> Forall request_ok (requests w) -> Forall user_event events ->
  let w' := fst (run (DOMContentLoaded load :: events) w) in
  snd (run (DOMContentLoaded load :: events) w) = Normal tt /\
  store_ok (STATE w') /\
  Forall request_ok (requests w') /\
  exists sent, requests w' = sent ++ requests w.
Proof.
  intros _ Hreqs Hevents. cbv zeta.
  destruct (reload_world_sound load w) as (_ & Hst & Hrq).
  cbn [run]. cbv [mbind action_bind]. unfold handle, unhandled.
  rewrite on_DOMContentLoaded_world. cbn [fst].
  match goal with |- context [run events ?w1] => set (w1' := w1) end.
  assert (Hstore1 : store_ok (STATE w1')).
  { subst w1'. rewrite STATE_with_page, Hst. apply loaded_store_ok. }
  assert (Hrq1 : requests w1' = requests w).
  { subst w1'. rewrite requests_with_page. exact Hrq. }
  assert (Hreqs1 : Forall request_ok (requests w1')) by (rewrite Hrq1; exact Hreqs).
  destruct (run_sound events w1' Hstore1 Hreqs1 Hevents) as (Hret & Hs & Hr & sent & Hsent).
  split; [exact Hret|]. split; [exact Hs|]. split; [exact Hr|].
  exists sent. rewrite Hsent, Hrq1. reflexivity.
Qed.

End Sessions.

(** ** The further properties at concrete pages *)

Lemma wired_page_wired : wired wired_page.
Proof. unfold wired, wired_page. cbn [page]. repeat split; simplify_map_eq; reflexivity. Defined.

(** X16, at the mode [ready] on a chip that showed both modes. *)
Lemma status_chip_shows_one_mode_witness :
  let w := mkWorld (mkStore [] false)
             (<[("loadStatus", "class:ready") := ""]>
                (<[("loadStatus", "class:error") := ""]> ∅)) [] Pending in
  let pg := page (fst (setStatus "ready" "TSV loaded" w)) in
  (is_Some (pg !! ("loadStatus", "class:ready")) <-> "ready" = "ready") /\
  (is_Some (pg !! ("loadStatus", "class:error")) <-> "ready" = "error") /\
  ~ (is_Some (pg !! ("loadStatus", "class:ready")) /\
     is_Some (pg !! ("loadStatus", "class:error"))) /\
  pg !! ("loadStatus.label", "textContent") = Some "TSV loaded".
Proof.
  intros w. apply (status_chip_shows_one_mode "ready" "TSV loaded" w).
  repeat constructor.
Defined.

(** X14, at a draw of three quarters over two reviews, with a token field
    that holds one no-break space: no authorization is sent. *)
Lemma analysis_sends_a_stored_review_witness :
  let nbsp := String (ascii_of_nat 194) (String (ascii_of_nat 160) "") in
  let w := mkWorld (mkStore ["good"; "bad movie"] true)
             (<[("tokenInput", "value") := nbsp]> ∅) [] Pending in
  let env := mkEnvironment (3 # 4) (Throw (TypeError "Failed to fetch")) in
  let w' := fst (@analyzeRandom plain_host env w) in
  exists t : string,
    t ∈ reviews (STATE w) /\
    requests w'
    = mkRequest endpoint "POST" [("Content-Type", "application/json")]
        (VObj [("inputs", VStr t)])
      :: requests w /\
    page w' !! ("reviewDisplay", "textContent")
    = Some (if String.eqb t "" then "(Empty review)" else t).
Proof.
  intros nbsp w env.
  assert (Hr : unit_draw (3 # 4)) by (split; apply Qle_bool_iff; vm_compute; reflexivity).
  exact (@analysis_sends_a_stored_review plain_host env w eq_refl
           ltac:(discriminate) Hr).
Defined.

(** X15, at a request that fails. *)
Lemma analysis_shows_error_or_result_witness :
  let w := mkWorld (mkStore ["good"] true) ∅ [] Pending in
  let env := mkEnvironment 0 (Throw (TypeError "Failed to fetch")) in
  let w' := fst (@analyzeRandom plain_host env w) in
  snd (@analyzeRandom plain_host env w) = Normal tt /\
  page w' !! ("errorBox", "style.display") = Some "block" /\
  page w' !! ("sentimentLabel", "textContent") = Some "Neutral (no result)".
Proof.
  intros w env.
  apply (proj1 (@analysis_shows_error_or_result plain_host env w eq_refl
                  ltac:(discriminate))).
  left. eexists. reflexivity.
Defined.

(** X19, at a click on the reload button of the wired page. *)
Lemma reload_leaves_button_idle_witness :
  let w' := fst (@handle plain_host (ClickReload two_rows) wired_page) in
  snd (@handle plain_host (ClickReload two_rows) wired_page) = Normal tt /\
  page w' !! ("reloadBtn", "aria-busy") = Some "false" /\
  STATE w' = loaded_store two_rows /\
  requests w' = requests wired_page.
Proof.
  apply (@reload_leaves_button_idle plain_host two_rows (ClickReload two_rows) wired_page).
  right. split; [reflexivity | exact wired_page_wired].
Defined.

(** X20, at a session that loads, analyzes twice and reloads in vain. *)
Lemma session_sends_only_reviews_witness :
  let w := mkWorld (mkStore [] false) ∅ [] Pending in
  let answer := mkResponse 200 (Normal (VArr [VArr [candidate "POSITIVE" (9 # 10)]])) in
  let events :=
    [ClickAnalyze (mkEnvironment (1 # 2) (Normal answer));
     KeydownToken "Enter" (mkEnvironment 0 (Throw (TypeError "Failed to fetch")));
     ClickReload (Failed (mkError "" "not found"))] in
  let w' := fst (@run plain_host (DOMContentLoaded two_rows :: events) w) in
  snd (@run plain_host (DOMContentLoaded two_rows :: events) w) = Normal tt /\
  store_ok (STATE w') /\
  Forall request_ok (requests w') /\
  exists sent, requests w' = sent ++ requests w.
Proof.
  intros w answer events.
  apply (@session_sends_only_reviews plain_host two_rows events w).
  - repeat split.
  - constructor.
  - repeat constructor; apply Qle_bool_iff; vm_compute; reflexivity.
Defined.
